(** * The change-capture-to-fanout pipeline of the order service

    A shallow embedding of three backend services:

    - [EmailService]        (services/emailService.js),
    - [WebSocketService]    (services/websocketService.js),
    - [ChangeStreamService] (services/changeStreamService.js).

    Asynchronous methods are embedded as finite programs over the effects
    the JavaScript performs ([prog]): reading the clock, emitting on the
    socket server, awaiting the mail transport, awaiting the statistics
    queries.  A program is run either sequentially against an environment
    that answers every await ([run]), or by the event loop, where every
    await suspends the handler and the feed may deliver the next event in
    between ([EventLoop]).  The lifecycle of the change stream
    (start, stop, error handling, retry timers) is a state machine over an
    explicit world holding the object's fields, the driver's open
    subscriptions and the pending timers ([Lifecycle]).

    Console output is not modelled. *)

From stdpp Require Import gmap strings list.
From Stdlib Require Import Ascii NArith Lia.

(** ** JavaScript values *)

(** Instants and durations, in milliseconds. *)
Definition time := N.

(** A thrown value: [error.message] and [error.code]. *)
Record jsError := { message : string; code : string }.

Definition TypeError : jsError :=
  {| message := "Cannot read properties of undefined"; code := "TypeError" |}.

(** Truthiness of a value that is either [undefined]/[null] or a string. *)
Definition truthy (v : option string) : bool :=
  match v with
  | Some s => bool_decide (s ≠ "")
  | None => false
  end.

(** [a || b] on such values. *)
Definition js_or (a b : option string) : option string :=
  if truthy a then a else b.

(** An order document, with the fields the services read. *)
Record order := {
  _id : string;
  customer_name : string;
  product_name : string;
  status : string;
  email : option string;
}.

(** ** Outbound messages *)

Inductive target :=
| ToAll                      (* io.emit *)
| ToRoom (room : string)     (* io.to(room).emit *)
| ToSocket (id : string).    (* socket.emit *)

Inductive payload :=
| OrderEnvelope (type : string) (data : order) (timestamp : time)
| UpdateEnvelope (type : string) (data : order) (previous_data : option order)
    (timestamp : time)
| CustomMessage (fields : list (string * string)) (timestamp : time)
| StatsMessage (total_orders : nat) (status_breakdown : gmap string nat)
    (timestamp : time)
| AckMessage (orderId : string) (subscribed : bool).

Definition payload_type (p : payload) : option string :=
  match p with
  | OrderEnvelope ty _ _ => Some ty
  | UpdateEnvelope ty _ _ _ => Some ty
  | _ => None
  end.

Record emission := { dest : target; event : string; body : payload }.

(** ** Mail transport *)

Record mailOptions := {
  from : option string;
  to : option string;
  subject : string;
  html : string;
  text : string;
}.

Record mailInfo := { messageId : string; response : string; envelope : string }.

(** What [sendEmail] resolves to. *)
Inductive sendResult :=
| SendSkipped (msg : string)                         (* success: false, message *)
| SendOk (messageId response envelope : string)      (* success: true, ... *)
| SendFailed (error code : string).                  (* success: false, error, code *)

Definition success (r : sendResult) : bool :=
  match r with SendOk _ _ _ => true | _ => false end.

(** Entry of a notification method of the email service. *)
Inductive notification :=
| OrderCreatedEmail (o : order)
| StatusChangeEmail (o : order) (oldStatus newStatus : string)
| OrderCancelledEmail (o : order).

(** ** Programs *)

(** The result of [Order.countDocuments()] and of the [$group] aggregate. *)
Definition dbStats : Type := nat * list (string * nat).

Inductive prog (A : Type) : Type :=
| Ret (a : A)
| Raise (e : jsError)
| NewDate (k : time -> prog A)
| IoEmit (m : emission) (k : prog A)
| Enter (n : notification) (k : prog A)
| AwaitSendMail (m : mailOptions) (k : jsError + mailInfo -> prog A)
| AwaitStats (k : jsError + dbStats -> prog A)
| Yield (k : prog A).

Arguments Ret {A} a.
Arguments Raise {A} e.
Arguments NewDate {A} k.
Arguments IoEmit {A} m k.
Arguments Enter {A} n k.
Arguments AwaitSendMail {A} m k.
Arguments AwaitStats {A} k.
Arguments Yield {A} k.

Fixpoint bind {A B : Type} (p : prog A) (f : A -> prog B) : prog B :=
  match p with
  | Ret a => f a
  | Raise e => Raise e
  | NewDate k => NewDate (fun t => bind (k t) f)
  | IoEmit m k => IoEmit m (bind k f)
  | Enter n k => Enter n (bind k f)
  | AwaitSendMail m k => AwaitSendMail m (fun r => bind (k r) f)
  | AwaitStats k => AwaitStats (fun r => bind (k r) f)
  | Yield k => Yield (bind k f)
  end.

(** [try { p } catch (error) { h error }] *)
Fixpoint try_catch {A : Type} (p : prog A) (h : jsError -> prog A) : prog A :=
  match p with
  | Ret a => Ret a
  | Raise e => h e
  | NewDate k => NewDate (fun t => try_catch (k t) h)
  | IoEmit m k => IoEmit m (try_catch k h)
  | Enter n k => Enter n (try_catch k h)
  | AwaitSendMail m k => AwaitSendMail m (fun r => try_catch (k r) h)
  | AwaitStats k => AwaitStats (fun r => try_catch (k r) h)
  | Yield k => Yield (try_catch k h)
  end.

Notation "x <- p ;; q" := (bind p (fun x => q))
  (at level 100, p at next level, right associativity).
Notation "p ;;; q" := (bind p (fun _ => q))
  (at level 100, right associativity).

Definition new_Date : prog time := NewDate Ret.
Definition emit (d : target) (ev : string) (p : payload) : prog unit :=
  IoEmit {| dest := d; event := ev; body := p |} (Ret tt).
Definition enter (n : notification) : prog unit := Enter n (Ret tt).

(** [await p] on the call of an async function [p].  The call runs [p] up to
    its own first await within the turn of the caller; the caller goes on, or
    catches what [p] threw, in a later turn, once [p] has settled. *)
Definition await {A : Type} (p : prog A) : prog A :=
  try_catch (x <- p ;; Yield (Ret x)) (fun e => Yield (Raise e)).
Arguments await : simpl never.

(** [await this.transporter.sendMail(mailOptions)]: a rejection is thrown at
    the await. *)
Definition await_sendMail (m : mailOptions) : prog mailInfo :=
  AwaitSendMail m (fun r => match r with inl e => Raise e | inr i => Ret i end).

(** [await Promise.all([Order.countDocuments(), Order.aggregate(...)])] *)
Definition await_stats : prog dbStats :=
  AwaitStats (fun r => match r with inl e => Raise e | inr s => Ret s end).

(** ** Sequential execution *)

(** What the program did, in order. *)
Inductive obs :=
| ObsEmit (m : emission)
| ObsNotify (n : notification)
| ObsSendMail (m : mailOptions)
| ObsStatsQuery.

Inductive completion (A : Type) :=
| Normal (a : A)
| Throw (e : jsError).
Arguments Normal {A} a.
Arguments Throw {A} e.

(** The surroundings of a run: the clock, the answer of the mail transport to
    each message, and the answer of the record store to the statistics
    queries. *)
Record environment := {
  clock : time;
  smtp : mailOptions -> jsError + mailInfo;
  db : jsError + dbStats;
}.

Fixpoint run {A : Type} (E : environment) (p : prog A) : list obs * completion A :=
  match p with
  | Ret a => ([], Normal a)
  | Raise e => ([], Throw e)
  | NewDate k => run E (k (clock E))
  | IoEmit m k => let '(t, r) := run E k in (ObsEmit m :: t, r)
  | Enter n k => let '(t, r) := run E k in (ObsNotify n :: t, r)
  | AwaitSendMail m k =>
      let '(t, r) := run E (k (smtp E m)) in (ObsSendMail m :: t, r)
  | AwaitStats k => let '(t, r) := run E (k (db E)) in (ObsStatsQuery :: t, r)
  | Yield k => run E k
  end.

Definition trace {A : Type} (E : environment) (p : prog A) : list obs := (run E p).1.
Definition outcome {A : Type} (E : environment) (p : prog A) : completion A := (run E p).2.

(** A program that completes normally whatever its surroundings answer. *)
Definition never_throws {A : Type} (p : prog A) : Prop :=
  ∀ E, ∃ a, outcome E p = Normal a.

(** Projections of a trace. *)
Definition emissions (t : list obs) : list emission :=
  omap (fun o => match o with ObsEmit m => Some m | _ => None end) t.
Definition notifications (t : list obs) : list notification :=
  omap (fun o => match o with ObsNotify n => Some n | _ => None end) t.
Definition mails (t : list obs) : list mailOptions :=
  omap (fun o => match o with ObsSendMail m => Some m | _ => None end) t.

Definition is_broadcast (m : emission) : bool :=
  match dest m with ToAll => true | _ => false end.
Definition is_room_copy (m : emission) : bool :=
  match dest m with ToRoom _ => true | _ => false end.
Definition named (ev : string) (m : emission) : bool := bool_decide (event m = ev).

(** The emissions that went to every connection. *)
Definition broadcasts (t : list obs) : list emission :=
  List.filter is_broadcast (emissions t).
(** The emissions that went to the members of a room only. *)
Definition room_copies (t : list obs) : list emission :=
  List.filter is_room_copy (emissions t).

(** ** WebSocketService *)

Module WebSocketService.

Definition order_room (orderId : string) : string := "order-" +:+ orderId.

(** An entry of [this.connectedClients]. *)
Record clientInfo := {
  id : string;
  connectedAt : time;
  lastActivity : time;
}.

(** The connection registry: [this.connectedClients] and, for every
    socket, the set of rooms it has joined (the adapter's [sids] map). *)
Record registry := {
  connectedClients : gmap string clientInfo;
  sids : gmap string (gset string);
}.

(** [socket.join(room)]: the room is added to the socket's set. *)
Definition join (socket room : string) (r : registry) : registry :=
  {| connectedClients := connectedClients r;
     sids := <[socket := {[room]} ∪ default ∅ (sids r !! socket)]> (sids r) |}.

(** [socket.leave(room)]: the room is deleted from the socket's set, when
    the socket has one. *)
Definition leave (socket room : string) (r : registry) : registry :=
  match sids r !! socket with
  | Some rooms =>
      {| connectedClients := connectedClients r;
         sids := <[socket := rooms ∖ {[room]}]> (sids r) |}
  | None => r
  end.

(** [socket.on("subscribe-order", (orderId) => ...)] *)
Definition on_subscribe_order (socket : string) (orderId : option string)
    (r : registry) : registry * list emission :=
  match orderId with
  | Some oid =>
      if truthy orderId
      then (join socket (order_room oid) r,
            [{| dest := ToSocket socket; event := "subscription-ack";
                body := AckMessage oid true |}])
      else (r, [])
  | None => (r, [])
  end.

(** [socket.on("unsubscribe-order", (orderId) => ...)] *)
Definition on_unsubscribe_order (socket : string) (orderId : option string)
    (r : registry) : registry * list emission :=
  match orderId with
  | Some oid =>
      if truthy orderId
      then (leave socket (order_room oid) r,
            [{| dest := ToSocket socket; event := "subscription-ack";
                body := AckMessage oid false |}])
      else (r, [])
  | None => (r, [])
  end.

(** Whether [socket] is in the room of order [orderId]. *)
Definition subscribed (socket orderId : string) (r : registry) : Prop :=
  order_room orderId ∈ default ∅ (sids r !! socket).

Definition broadcastOrderCreated (o : order) : prog unit :=
  now <- new_Date ;;
  let payload := OrderEnvelope "order-created" o now in
  emit ToAll "order-created" payload ;;;
  emit (ToRoom (order_room (_id o))) "order-update"
    (OrderEnvelope "order-created" o now).

Definition broadcastOrderUpdated (o : order) (previousData : option order)
  : prog unit :=
  now <- new_Date ;;
  let payload := UpdateEnvelope "order-updated" o previousData now in
  emit ToAll "order-updated" payload ;;;
  emit (ToRoom (order_room (_id o))) "order-update"
    (UpdateEnvelope "order-updated" o previousData now).

Definition broadcastOrderDeleted (o : order) : prog unit :=
  now <- new_Date ;;
  let payload := OrderEnvelope "order-deleted" o now in
  emit ToAll "order-deleted" payload ;;;
  emit (ToRoom (order_room (_id o))) "order-update"
    (OrderEnvelope "order-deleted" o now).

(** [statusCounts.reduce((acc, item) => { acc[item._id] = item.count; ... }, {})] *)
Definition status_breakdown_of (statusCounts : list (string * nat))
  : gmap string nat :=
  foldl (fun acc item => <[item.1 := item.2]> acc) ∅ statusCounts.

Definition broadcastStats : prog unit :=
  try_catch
    (r <- await_stats ;;
     now <- new_Date ;;
     emit ToAll "order-stats"
       (StatsMessage r.1 (status_breakdown_of r.2) now))
    (fun _ => Ret tt).

Definition broadcastCustomMessage (ev : string) (data : list (string * string))
  : prog unit :=
  now <- new_Date ;;
  emit ToAll ev (CustomMessage data now).

(** *** Connections *)

(** Payloads of the messages about the connections themselves. *)
Inductive notice :=
| ConnectionAck (clientId : string) (connectedAt : time) (message : string)
| ClientCount (connected_clients : nat) (timestamp : time)
| Pong (timestamp : time) (clientId : string)
| ConnectionInfo (info : option clientInfo) (connectedClients : nat).

Record announcement := { recipient : target; topic : string; content : notice }.

(** [broadcastClientCount()] *)
Definition broadcastClientCount (now : time) (r : registry) : announcement :=
  {| recipient := ToAll; topic := "client-count-update";
     content := ClientCount (size (connectedClients r)) now |}.

(** [sendStatsToClient(socket)] *)
Definition sendStatsToClient (socket : string) : prog unit :=
  try_catch
    (r <- await_stats ;;
     now <- new_Date ;;
     emit (ToSocket socket) "order-stats"
       (StatsMessage r.1 (status_breakdown_of r.2) now))
    (fun _ => Ret tt).

(** The listener of [this.io.on("connection", ...)], for the socket [socket]
    at time [now].  When it runs, the socket has joined the room named by its
    own id.  The result is the registry, the messages sent before the
    listener returns, and the statistics program it starts without awaiting
    it. *)
Definition on_connection (socket : string) (now : time) (r : registry)
  : registry * list announcement * prog unit :=
  let clientInfo := {| id := socket; connectedAt := now; lastActivity := now |} in
  let r := {| connectedClients := <[socket := clientInfo]> (connectedClients r);
              sids := <[socket := {[socket]}]> (sids r) |} in
  (r,
   [{| recipient := ToSocket socket; topic := "connection-ack";
       content := ConnectionAck socket now
                    "Connected successfully to real-time order updates" |};
    broadcastClientCount now r],
   sendStatsToClient socket).

(** The listener of [socket.on("disconnect", ...)]; the socket has left all
    its rooms when it runs. *)
Definition on_disconnect (socket : string) (now : time) (r : registry)
  : registry * list announcement :=
  let r := {| connectedClients := delete socket (connectedClients r);
              sids := delete socket (sids r) |} in
  (r, [broadcastClientCount now r]).

(** [socket.on("ping", (callback) => ...)]; [callback] tells whether the
    client passed a function, and the reply is what that function is called
    with. *)
Definition on_ping (socket : string) (now : time) (callback : bool)
    (r : registry) : registry * option notice :=
  let r :=
    match connectedClients r !! socket with
    | Some clientInfo =>
        {| connectedClients :=
             <[socket := {| id := id clientInfo;
                            connectedAt := connectedAt clientInfo;
                            lastActivity := now |}]> (connectedClients r);
           sids := sids r |}
    | None => r
    end in
  (r, if callback then Some (Pong now socket) else None).

(** [socket.on("connection-info", (callback) => ...)] *)
Definition on_connection_info (socket : string) (callback : bool) (r : registry)
  : option notice :=
  if callback
  then Some (ConnectionInfo (connectedClients r !! socket)
               (size (connectedClients r)))
  else None.

(** [socket.on("request-stats", ...)] *)
Definition on_request_stats (socket : string) : prog unit :=
  sendStatsToClient socket.

(** The bucket of a connection that has lasted [minutesConnected] minutes. *)
Definition bucket_of (minutesConnected : Z) : string :=
  if (minutesConnected <? 5)%Z then "< 5min"
  else if (minutesConnected <? 30)%Z then "5-30min"
  else if (minutesConnected <? 60)%Z then "30-60min"
  else "> 1hr".

(** [Math.floor((now - client.connectedAt) / (1000 * 60))] *)
Definition minutes_connected (now : time) (client : clientInfo) : Z :=
  ((Z.of_N now - Z.of_N (connectedAt client)) / (1000 * 60))%Z.

(** [now - client.lastActivity < 300000] *)
Definition is_active (now : time) (client : clientInfo) : bool :=
  (Z.of_N now - Z.of_N (lastActivity client) <? 300000)%Z.

Record connectionStats := {
  total_connections : nat;
  connections_by_time : gmap string nat;
  active_connections : nat;
}.

(** [acc[bucket] = (acc[bucket] || 0) + 1] *)
Definition count_in (bucket : string) (acc : gmap string nat) : gmap string nat :=
  <[bucket := default 0 (acc !! bucket) + 1]> acc.

(** [getConnectionStats()] at time [now]. *)
Definition getConnectionStats (now : time) (r : registry) : connectionStats :=
  let connections := (map_to_list (connectedClients r)).*2 in
  {| total_connections := length connections;
     connections_by_time :=
       foldl (fun acc client => count_in (bucket_of (minutes_connected now client)) acc)
         ∅ connections;
     active_connections := length (List.filter (is_active now) connections) |}.

(** Who a message with destination [d] reaches: every connected socket for
    [io.emit], the sockets that have joined the room for [io.to(room).emit],
    the socket itself for [socket.emit]. *)
Definition receivers (r : registry) (d : target) : gset string :=
  match d with
  | ToAll => dom (sids r)
  | ToRoom room => dom (filter (fun kv => room ∈ kv.2) (sids r))
  | ToSocket socket => {[socket]}
  end.

(** The connections counted in the four buckets together. *)
Definition bucket_total (acc : gmap string nat) : nat :=
  default 0 (acc !! "< 5min") + default 0 (acc !! "5-30min") +
  default 0 (acc !! "30-60min") + default 0 (acc !! "> 1hr").

End WebSocketService.

(** ** EmailService *)

Module EmailService.

(** [this.transporter] (null or a transport) and [this.isConfigured]. *)
Record service := { transporter : bool; isConfigured : bool }.

(** State set by the constructor before [initializeTransporter]. *)
Definition fresh : service := {| transporter := false; isConfigured := false |}.

(** [verify] is the outcome of [await this.transporter.verify()]. *)
Definition verifyConnection (verify : option jsError) (this : service) : service :=
  if negb (transporter this) then this
  else match verify with
       | None => {| transporter := transporter this; isConfigured := true |}
       | Some _ => {| transporter := transporter this; isConfigured := false |}
       end.

(** [create] is the outcome of [nodemailer.createTransporter(...)]; the
    verification it starts is not awaited, the state given here is the one
    reached when it has settled. *)
Definition initializeTransporter (env : gmap string string)
    (create verify : option jsError) (this : service) : service :=
  if negb (truthy (env !! "EMAIL_USER")) || negb (truthy (env !! "EMAIL_PASS"))
  then this
  else match create with
       | Some _ => this
       | None =>
           verifyConnection verify
             {| transporter := true; isConfigured := isConfigured this |}
       end.

Definition new_EmailService (env : gmap string string)
    (create verify : option jsError) : service :=
  initializeTransporter env create verify fresh.

(** The service as [new EmailService()] returns it: [verifyConnection()] has
    been called and is suspended at [await this.transporter.verify()], so
    [isConfigured] still has the value the constructor gave it. *)
Definition constructed (env : gmap string string) (create : option jsError)
  : service :=
  if negb (truthy (env !! "EMAIL_USER")) || negb (truthy (env !! "EMAIL_PASS"))
  then fresh
  else match create with
       | Some _ => fresh
       | None => {| transporter := true; isConfigured := false |}
       end.

(** The strings hold the UTF-8 encoding of the JavaScript text.  The
    characters that [\s] and [trim()] take for whitespace are encoded on one
    byte (tab, line feed, vertical tab, form feed, carriage return, space), on
    two (U+00A0) or on three (U+1680, U+2000 to U+200A, U+2028, U+2029,
    U+202F, U+205F, U+3000, U+FEFF). *)
Definition is_whitespace1 (c : Ascii.ascii) : bool :=
  let n := Ascii.nat_of_ascii c in
  (Nat.leb 9 n && Nat.leb n 13) || Nat.eqb n 32.

Definition is_whitespace2 (c1 c2 : Ascii.ascii) : bool :=
  Nat.eqb (Ascii.nat_of_ascii c1) 194 && Nat.eqb (Ascii.nat_of_ascii c2) 160.

Definition is_whitespace3 (c1 c2 c3 : Ascii.ascii) : bool :=
  let a := Ascii.nat_of_ascii c1 in
  let b := Ascii.nat_of_ascii c2 in
  let c := Ascii.nat_of_ascii c3 in
  (Nat.eqb a 225 && Nat.eqb b 154 && Nat.eqb c 128)
  || (Nat.eqb a 226 && Nat.eqb b 128
      && ((Nat.leb 128 c && Nat.leb c 138)
          || Nat.eqb c 168 || Nat.eqb c 169 || Nat.eqb c 175))
  || (Nat.eqb a 226 && Nat.eqb b 129 && Nat.eqb c 159)
  || (Nat.eqb a 227 && Nat.eqb b 128 && Nat.eqb c 128)
  || (Nat.eqb a 239 && Nat.eqb b 187 && Nat.eqb c 191).

(** The number of bytes of the whitespace character that [s] begins with;
    0 when [s] does not begin with whitespace. *)
Definition is_whitespace (s : string) : nat :=
  match s with
  | String c1 rest1 =>
      if is_whitespace1 c1 then 1
      else match rest1 with
           | String c2 rest2 =>
               if is_whitespace2 c1 c2 then 2
               else match rest2 with
                    | String c3 _ => if is_whitespace3 c1 c2 c3 then 3 else 0
                    | EmptyString => 0
                    end
           | EmptyString => 0
           end
  | EmptyString => 0
  end.

(** [.replace(/<[^>]*>/g, "")].  [tag] holds the text read since an
    unclosed ["<"]; it is kept when no [">"] follows. *)
Fixpoint strip_tags (tag : option string) (s : string) : string :=
  match s with
  | EmptyString => default "" tag
  | String c rest =>
      match tag with
      | None =>
          if Ascii.eqb c "<"%char then strip_tags (Some "<") rest
          else String c (strip_tags None rest)
      | Some buf =>
          if Ascii.eqb c ">"%char then strip_tags None rest
          else strip_tags (Some (buf +:+ String c "")) rest
      end
  end.

(** [.replace(/\s+/g, " ")].  [skip] counts the bytes that remain of the
    whitespace character being read, [in_run] tells whether the character
    before was whitespace. *)
Fixpoint collapse_spaces (skip : nat) (in_run : bool) (s : string) : string :=
  match s with
  | EmptyString => ""
  | String c rest =>
      match skip with
      | S skip' => collapse_spaces skip' in_run rest
      | O =>
          match is_whitespace s with
          | S width =>
              if in_run then collapse_spaces width true rest
              else String " " (collapse_spaces width true rest)
          | O => String c (collapse_spaces 0 false rest)
          end
      end
  end.

(** [.trimStart()] *)
Fixpoint trim_start (skip : nat) (s : string) : string :=
  match s with
  | EmptyString => ""
  | String c rest =>
      match skip with
      | S skip' => trim_start skip' rest
      | O =>
          match is_whitespace s with
          | S width => trim_start width rest
          | O => s
          end
      end
  end.

(** Whether [s] is made of whitespace only. *)
Definition blank (s : string) : bool :=
  match trim_start 0 s with
  | EmptyString => true
  | String _ _ => false
  end.

(** [.trimEnd()] *)
Fixpoint trim_end (s : string) : string :=
  match s with
  | EmptyString => ""
  | String c rest => if blank s then "" else String c (trim_end rest)
  end.

(** [.trim()] *)
Definition trim (s : string) : string := trim_end (trim_start 0 s).

Definition stripHtmlTags (html : string) : string :=
  trim (collapse_spaces 0 false (strip_tags None html)).

Definition sendEmail (this : service) (env : gmap string string)
    (to : option string) (subject html : string) (text : option string)
  : prog sendResult :=
  if negb (isConfigured this)
  then Ret (SendSkipped "Email service not configured")
  else
    let recipient := js_or (env !! "EMAIL_TO") to in
    try_catch
      (let mailOptions :=
         {| from := js_or (env !! "EMAIL_FROM") (env !! "EMAIL_USER");
            to := recipient;
            subject := subject;
            html := html;
            text := if truthy text then default "" text else stripHtmlTags html |} in
       info <- await_sendMail mailOptions ;;
       Ret (SendOk (messageId info) (response info) (envelope info)))
      (fun error => Ret (SendFailed (message error) (code error))).

Definition getOrderCreatedEmailTemplate (o : order) : string :=
  "<!-- Your existing template code -->".
Definition getStatusChangeEmailTemplate (o : order) (oldStatus newStatus : string)
  : string := "<!-- Your existing template code -->".
Definition getOrderCancelledEmailTemplate (o : order) : string :=
  "<!-- Your existing template code -->".

Definition sendOrderCreatedEmail (this : service) (env : gmap string string)
    (o : order) : prog sendResult :=
  enter (OrderCreatedEmail o) ;;;
  let subject := "Order Confirmation - " +:+ product_name o in
  let html := getOrderCreatedEmailTemplate o in
  await (sendEmail this env (email o) subject html None).

Definition sendStatusChangeEmail (this : service) (env : gmap string string)
    (o : order) (oldStatus newStatus : string) : prog sendResult :=
  enter (StatusChangeEmail o oldStatus newStatus) ;;;
  let subject :=
    "Order Update - " +:+ product_name o +:+ " is now " +:+ newStatus in
  let html := getStatusChangeEmailTemplate o oldStatus newStatus in
  await (sendEmail this env (email o) subject html None).

Definition sendOrderCancelledEmail (this : service) (env : gmap string string)
    (o : order) : prog sendResult :=
  enter (OrderCancelledEmail o) ;;;
  let subject := "Order Cancelled - " +:+ product_name o in
  let html := getOrderCancelledEmailTemplate o in
  await (sendEmail this env (email o) subject html None).

(** Whether the character [c] occurs in [s]. *)
Fixpoint occurs (c : Ascii.ascii) (s : string) : bool :=
  match s with
  | EmptyString => false
  | String c' rest => Ascii.eqb c' c || occurs c rest
  end.

(** Whether [s] has a whitespace character. *)
Fixpoint has_whitespace (s : string) : bool :=
  match s with
  | EmptyString => false
  | String c rest => negb (Nat.eqb (is_whitespace s) 0) || has_whitespace rest
  end.

(** The no-break space U+00A0. *)
Definition nbsp : string :=
  String (Ascii.ascii_of_nat 194) (String (Ascii.ascii_of_nat 160) "").

End EmailService.

(** ** ChangeStreamService: handling of one change *)

(** A change event of the feed that carries the key of its document, as the
    events of the operation types insert, update, replace and delete do. *)
Record change := {
  operationType : string;
  fullDocument : option order;
  fullDocumentBeforeChange : option order;
  documentKey : string;            (* documentKey._id *)
}.

(** An event as the driver hands it to the listener.  The events of the
    other operation types (drop, rename, dropDatabase, invalidate) have no
    [documentKey]. *)
Module Feed.

Record event := {
  operationType : string;
  fullDocument : option order;
  fullDocumentBeforeChange : option order;
  documentKey : option string;     (* documentKey._id, where there is a key *)
}.

(** The event [e], known to carry the key [key]. *)
Definition keyed (e : event) (key : string) : change :=
  Build_change (operationType e) (fullDocument e) (fullDocumentBeforeChange e) key.

(** The event that carries what [c] does. *)
Definition of_change (c : change) : event :=
  match c with
  | Build_change op doc before key =>
      {| operationType := op; fullDocument := doc;
         fullDocumentBeforeChange := before; documentKey := Some key |}
  end.

End Feed.

Module ChangeStreamService.

Section Handlers.

Variable emailService : EmailService.service.
Variable env : gmap string string.       (* process.env *)

(** [try { await send } catch (error) { console.error(...) }] *)
Definition guarded (send : prog sendResult) : prog unit :=
  try_catch (await send ;;; Ret tt) (fun _ => Ret tt).

Definition handleInsert (document : option order) : prog unit :=
  match document with
  | None => Raise TypeError
  | Some d =>
      WebSocketService.broadcastOrderCreated d ;;;
      if truthy (email d)
      then guarded (EmailService.sendOrderCreatedEmail emailService env d)
      else Ret tt
  end.

Definition handleUpdate (document previousDocument : option order)
  : prog unit :=
  match document with
  | None => Ret tt
  | Some d =>
      let statusChanged :=
        match previousDocument with
        | Some p => bool_decide (status p ≠ status d)
        | None => false
        end in
      WebSocketService.broadcastOrderUpdated d previousDocument ;;;
      (if statusChanged && truthy (email d)
       then match previousDocument with
            | Some p =>
                guarded (EmailService.sendStatusChangeEmail emailService env
                           d (status p) (status d))
            | None => Ret tt
            end
       else Ret tt) ;;;
      if statusChanged
      then if bool_decide (status d = "delivered")
           then WebSocketService.broadcastCustomMessage "order-delivered"
                  [("orderId", _id d);
                   ("customer_name", customer_name d);
                   ("product_name", product_name d)]
           else Ret tt
      else Ret tt
  end.

Definition handleDelete (documentKey : string)
    (previousDocument : option order) : prog unit :=
  let orderId := documentKey in
  let deletedOrderInfo :=
    match previousDocument with
    | Some p => p
    | None => {| _id := orderId; customer_name := "Unknown";
                 product_name := "Unknown"; status := "deleted";
                 email := None |}
    end in
  WebSocketService.broadcastOrderDeleted deletedOrderInfo ;;;
  match previousDocument with
  | Some p =>
      if truthy (email p)
      then guarded (EmailService.sendOrderCancelledEmail emailService env p)
      else Ret tt
  | None => Ret tt
  end.

Definition handleReplace (document previousDocument : option order)
  : prog unit :=
  match document with
  | None => Raise TypeError
  | Some _ => await (handleUpdate document previousDocument)
  end.

(** [handleChange(change)] from its [try] on, once the line logged before it
    has read the key of [c]. *)
Definition handleChange (c : change) : prog unit :=
  try_catch
    ((if bool_decide (operationType c = "insert")
      then await (handleInsert (fullDocument c))
      else if bool_decide (operationType c = "update")
      then await (handleUpdate (fullDocument c) (fullDocumentBeforeChange c))
      else if bool_decide (operationType c = "delete")
      then await (handleDelete (documentKey c) (fullDocumentBeforeChange c))
      else if bool_decide (operationType c = "replace")
      then await (handleReplace (fullDocument c) (fullDocumentBeforeChange c))
      else Ret tt) ;;;
     await WebSocketService.broadcastStats)
    (fun _ => Ret tt).

(** The listener of [changeStream.on("change", ...)] on a change that carries
    its key. *)
Definition on_change (c : change) : prog unit :=
  try_catch (await (handleChange c)) (fun _ => Ret tt).

(** [handleChange(change)] from its first line: the line logged before the
    [try] reads [documentKey._id], which throws when the event has no
    [documentKey]. *)
Definition handleEvent (e : Feed.event) : prog unit :=
  match Feed.documentKey e with
  | Some key => handleChange (Feed.keyed e key)
  | None => Raise TypeError
  end.

(** The listener registered with [changeStream.on("change", ...)]. *)
Definition on_event (e : Feed.event) : prog unit :=
  try_catch (await (handleEvent e)) (fun _ => Ret tt).

End Handlers.

End ChangeStreamService.

(** ** ChangeStreamService: lifecycle of the subscription *)

(** The methods that open, close and retry the subscription, as functions of
    a world.  What the surroundings decide is an argument: whether
    [watch(...)] throws, whether [close()] rejects.  A method runs to its end
    before the next input is taken; the only work left for later is the
    callback handed to [setTimeout]. *)
Module Lifecycle.

Definition streamId := nat.

(** The fields of the service object. *)
Record service := {
  changeStream : option streamId;
  isRunning : bool;
  retryCount : nat;
  maxRetries : nat;
  retryDelay : N;
}.

(** State set by the constructor. *)
Definition new_ChangeStreamService : service :=
  {| changeStream := None; isRunning := false; retryCount := 0;
     maxRetries := 5; retryDelay := 5000%N |}.

(** What the service asked of its surroundings. *)
Inductive action :=
| Watch (result : jsError + streamId)      (* Order.collection.watch(...) *)
| Close (s : streamId)                     (* changeStream.close() *)
| SetTimeout (delay : N)                   (* setTimeout(retry, delay) *)
| Broadcast (m : emission).                (* through the socket server *)

(** A pending [setTimeout] callback; the only callback is the retry. *)
Record timer := { due : time; delay : N }.

Record world := {
  this : service;
  opened : list streamId;        (* subscriptions open at the driver *)
  next_stream : streamId;
  timers : list timer;
  now : time;
  log : list action;
}.

Definition with_this (f : service -> service) (w : world) : world :=
  {| this := f (this w); opened := opened w; next_stream := next_stream w;
     timers := timers w; now := now w; log := log w |}.

Definition set_changeStream (c : option streamId) (s : service) : service :=
  {| changeStream := c; isRunning := isRunning s; retryCount := retryCount s;
     maxRetries := maxRetries s; retryDelay := retryDelay s |}.
Definition set_isRunning (b : bool) (s : service) : service :=
  {| changeStream := changeStream s; isRunning := b; retryCount := retryCount s;
     maxRetries := maxRetries s; retryDelay := retryDelay s |}.
Definition set_retryCount (n : nat) (s : service) : service :=
  {| changeStream := changeStream s; isRunning := isRunning s; retryCount := n;
     maxRetries := maxRetries s; retryDelay := retryDelay s |}.

Definition record (a : action) (w : world) : world :=
  {| this := this w; opened := opened w; next_stream := next_stream w;
     timers := timers w; now := now w; log := log w ++ [a] |}.

(** [Order.collection.watch([], options)] succeeding: a new subscription. *)
Definition open_stream (w : world) : world :=
  {| this := this w; opened := opened w ++ [next_stream w];
     next_stream := S (next_stream w);
     timers := timers w; now := now w; log := log w |}.

(** [setTimeout(callback, delay)] *)
Definition setTimeout (d : N) (w : world) : world :=
  record (SetTimeout d)
    {| this := this w; opened := opened w; next_stream := next_stream w;
       timers := timers w ++ [{| due := (now w + d)%N; delay := d |}];
       now := now w; log := log w |}.

(** Emissions of a program that awaits nothing, at the current time. *)
Definition quiet (t : time) : environment :=
  {| clock := t; smtp := fun _ => inl TypeError; db := inl TypeError |}.

Definition perform (p : prog unit) (w : world) : world :=
  foldl (fun w m => record (Broadcast m) w) w (emissions (trace (quiet (now w)) p)).

(** [startChangeStream()]; [watch] is [Some e] when [watch(...)] throws [e].
    The listeners registered on the new stream are [ChangeStreamService.on_event],
    [on_stream_error] and [on_stream_close] below. *)
Definition startChangeStream (watch : option jsError) (w : world)
  : completion unit * world :=
  match watch with
  | Some e => (Throw e, record (Watch (inl e)) w)
  | None =>
      let s := next_stream w in
      let w := record (Watch (inr s)) (open_stream w) in
      let w := with_this (set_changeStream (Some s)) w in
      (Normal tt, with_this (set_retryCount 0) w)
  end.

(** [changeStream.on("close", () => { this.isRunning = false })] *)
Definition on_stream_close (w : world) : world :=
  with_this (set_isRunning false) w.

(** [await this.changeStream.close()] with its rejection caught; [close] is
    [Some e] when closing rejects with [e].  A stream that closes tells its
    ["close"] listener. *)
Definition close_stream (close : option jsError) (s : streamId) (w : world)
  : world :=
  let w := record (Close s) w in
  match close with
  | Some _ => w
  | None =>
      on_stream_close
        {| this := this w;
           opened := List.filter (fun s' => negb (Nat.eqb s' s)) (opened w);
           next_stream := next_stream w; timers := timers w; now := now w;
           log := log w |}
  end.

(** [if (this.changeStream) { try { await this.changeStream.close() }
    catch (e) { ... } this.changeStream = null }] *)
Definition release (close : option jsError) (w : world) : world :=
  match changeStream (this w) with
  | Some s => with_this (set_changeStream None) (close_stream close s w)
  | None => w
  end.

Definition service_error : list (string * string) :=
  [("service", "change-stream"); ("status", "stopped");
   ("message", "Real-time updates temporarily unavailable")].

(** [handleError(error)]; the retry it schedules is the timer's callback
    [retry] below. *)
Definition handleError (close : option jsError) (w : world) : world :=
  let w := release close w in
  let w := with_this (set_isRunning false) w in
  if Nat.ltb (retryCount (this w)) (maxRetries (this w))
  then
    let w := with_this (set_retryCount (S (retryCount (this w)))) w in
    let delay :=
      (retryDelay (this w) * 2 ^ N.of_nat (retryCount (this w) - 1))%N in
    setTimeout delay w
  else
    perform (WebSocketService.broadcastCustomMessage "service-error" service_error) w.

(** [start()], from the point where the record store is reachable:
    [try { await this.startChangeStream(); this.isRunning = true }
     catch (error) { await this.handleError(error) }] *)
Definition start (watch close : option jsError) (w : world) : world :=
  match startChangeStream watch w with
  | (Normal _, w) => with_this (set_isRunning true) w
  | (Throw _, w) => handleError close w
  end.

(** The callback that [handleError] hands to [setTimeout]:
    [try { await this.startChangeStream(); this.isRunning = true }
     catch (retryError) { await this.handleError(retryError) }] *)
Definition retry (watch close : option jsError) (w : world) : world :=
  match startChangeStream watch w with
  | (Normal _, w) => with_this (set_isRunning true) w
  | (Throw _, w) => handleError close w
  end.

(** [changeStream.on("error", async (error) => { await this.handleError(error) })] *)
Definition on_stream_error := handleError.

(** [stop()] *)
Definition stop (close : option jsError) (w : world) : world :=
  let w := with_this (set_isRunning false) w in
  release close w.

(** What happens to the service. *)
Inductive input :=
| CallStart (watch close : option jsError)
| CallStop (close : option jsError)
| StreamError (close : option jsError)
| Elapse (dt : N)
| TimerFires (i : nat) (watch close : option jsError).

Definition elapse (dt : N) (w : world) : world :=
  {| this := this w; opened := opened w; next_stream := next_stream w;
     timers := timers w; now := (now w + dt)%N; log := log w |}.

(** The [i]-th pending timer runs its callback, if it is due. *)
Definition fire (i : nat) (watch close : option jsError) (w : world) : world :=
  match timers w !! i with
  | Some t =>
      if N.leb (due t) (now w)
      then retry watch close
             {| this := this w; opened := opened w; next_stream := next_stream w;
                timers := delete i (timers w); now := now w; log := log w |}
      else w
  | None => w
  end.

Definition step (w : world) (i : input) : world :=
  match i with
  | CallStart watch close => start watch close w
  | CallStop close => stop close w
  | StreamError close => on_stream_error close w
  | Elapse dt => elapse dt w
  | TimerFires i watch close => fire i watch close w
  end.

Definition exec (w : world) (inputs : list input) : world :=
  foldl step w inputs.

(** Projections of the log. *)
Definition attempts (l : list action) : list (jsError + streamId) :=
  omap (fun a => match a with Watch r => Some r | _ => None end) l.
Definition delays (l : list action) : list N :=
  omap (fun a => match a with SetTimeout d => Some d | _ => None end) l.
Definition broadcast_events (l : list action) : list string :=
  omap (fun a => match a with Broadcast m => Some (event m) | _ => None end) l.

(** The pending retry comes due and its resubscription throws [e]; with no
    retry pending nothing happens. *)
Definition retry_fails (e : jsError) (w : world) : world :=
  match timers w with
  | t :: _ => fire 0 (Some e) None (elapse (due t - now w)%N w)
  | [] => w
  end.

(** [n] retries in a row fail. *)
Definition consecutive_failures (e : jsError) (n : nat) (w : world) : world :=
  Nat.iter n (retry_fails e) w.

(** The time the first [n] retries take together. *)
Fixpoint backoff_total (base : N) (n : nat) : N :=
  match n with
  | 0 => 0%N
  | S n' => (backoff_total base n' + base * 2 ^ N.of_nat n')%N
  end.

(** The service right after construction, and the state [Watching]. *)
Definition initial (s : service) : world :=
  {| this := s; opened := []; next_stream := 0; timers := []; now := 0%N;
     log := [] |}.

Definition watching (w : world) : Prop :=
  isRunning (this w) = true ∧
  ∃ s, changeStream (this w) = Some s ∧ s ∈ opened w.

(** A service that is watching stream 0, as [start()] leaves it. *)
Definition watching_world : world :=
  start None None (initial new_ChangeStreamService).

(** The service waits for retry number [c + 1], the only pending timer, set
    at the current time; [l] is what it has logged since the feed broke. *)
Record retrying (m : nat) (b : N) (w0 : world) (c : nat) (l : list action)
    (w : world) : Prop := {
  rt_stream : changeStream (this w) = None;
  rt_count : retryCount (this w) = S c;
  rt_max : maxRetries (this w) = m;
  rt_base : retryDelay (this w) = b;
  rt_timer : timers w = [{| due := (now w + b * 2 ^ N.of_nat c)%N;
                            delay := (b * 2 ^ N.of_nat c)%N |}];
  rt_now : now w = (now w0 + backoff_total b c)%N;
  rt_log : log w = log w0 ++ l;
}.

(** The emission that announces that the service gave up. *)
Definition service_error_at (t : time) : emission :=
  {| dest := ToAll; event := "service-error";
     body := CustomMessage service_error t |}.

(** What [n] failed retries after the first add to the log. *)
Definition failed_retries (e : jsError) (b : N) (n : nat) : list action :=
  flat_map (fun k => [Watch (inl e); SetTimeout (b * 2 ^ N.of_nat k)%N])
    (seq 1 n).

(** [resetRetryCount()] *)
Definition resetRetryCount (w : world) : world :=
  with_this (set_retryCount 0) w.

(** What holds of the service and its surroundings whatever happens: the
    retry count is within the maximum, a running service holds a stream, the
    streams the driver has handed out are numbered below the next one and
    are open at most once, and every pending retry was set with one of the
    delays of the backoff schedule. *)
Record consistent (w : world) : Prop := {
  retries_bounded : retryCount (this w) ≤ maxRetries (this w);
  running_holds_stream :
    isRunning (this w) = true -> is_Some (changeStream (this w));
  handle_allocated : ∀ s, changeStream (this w) = Some s -> s < next_stream w;
  opened_allocated : Forall (fun s => s < next_stream w) (opened w);
  opened_once : NoDup (opened w);
  timers_backoff :
    Forall (fun t => ∃ k, k < maxRetries (this w) ∧
                          delay t = (retryDelay (this w) * 2 ^ N.of_nat k)%N)
      (timers w);
}.

End Lifecycle.

(** ** The event loop around the change listener *)

(** The feed calls the listener once per event, in the order of the feed, and
    does not wait for the promise the listener returns.  A handler runs until
    its next await and is suspended there: at an await on I/O (the mail
    transport, the statistics queries) until that I/O settles, at an await on
    an async function of the services until a later turn of the loop.  Which
    suspended handler goes on next, and when the feed delivers, is decided by
    the schedule. *)
Module EventLoop.

(** A handler suspended at an await. *)
Inductive suspended :=
| OnSendMail (m : mailOptions) (k : jsError + mailInfo -> prog unit)
| OnStats (k : jsError + dbStats -> prog unit)
| OnTurn (k : prog unit).

(** What an observer of the process sees. *)
Inductive happening :=
| Handle (e : Feed.event)   (* the listener is invoked with [e] *)
| Did (o : obs).

Record loop := {
  feed : list Feed.event;         (* events the feed has yet to deliver *)
  pending : list suspended;       (* handlers in flight *)
  now : time;
  history : list happening;
}.

(** Runs a handler up to its next await, or to its end. *)
Fixpoint advance (t : time) (p : prog unit) : list obs * option suspended :=
  match p with
  | Ret _ => ([], None)
  | Raise _ => ([], None)
  | NewDate k => advance t (k t)
  | IoEmit m k => let '(os, s) := advance t k in (ObsEmit m :: os, s)
  | Enter n k => let '(os, s) := advance t k in (ObsNotify n :: os, s)
  | AwaitSendMail m k => ([ObsSendMail m], Some (OnSendMail m k))
  | AwaitStats k => ([ObsStatsQuery], Some (OnStats k))
  | Yield k => ([], Some (OnTurn k))
  end.

Inductive tick :=
| Deliver                                       (* the feed emits "change" *)
| MailSettles (i : nat) (r : jsError + mailInfo)
| StatsSettle (i : nat) (r : jsError + dbStats)
| Resume (i : nat)                              (* a settled await goes on *)
| Elapse (dt : N).

Section Loop.

Variable emailService : EmailService.service.
Variable env : gmap string string.

Definition proceed (l : loop) (rest : list suspended) (p : prog unit) : loop :=
  let '(os, s) := advance (now l) p in
  {| feed := feed l;
     pending := rest ++ option_list s;
     now := now l;
     history := history l ++ (Did <$> os) |}.

Definition deliver (l : loop) : loop :=
  match feed l with
  | [] => l
  | e :: es =>
      proceed
        {| feed := es; pending := pending l; now := now l;
           history := history l ++ [Handle e] |}
        (pending l)
        (ChangeStreamService.on_event emailService env e)
  end.

Definition step (l : loop) (t : tick) : loop :=
  match t with
  | Deliver => deliver l
  | MailSettles i r =>
      match pending l !! i with
      | Some (OnSendMail _ k) => proceed l (delete i (pending l)) (k r)
      | _ => l
      end
  | StatsSettle i r =>
      match pending l !! i with
      | Some (OnStats k) => proceed l (delete i (pending l)) (k r)
      | _ => l
      end
  | Resume i =>
      match pending l !! i with
      | Some (OnTurn k) => proceed l (delete i (pending l)) k
      | _ => l
      end
  | Elapse dt =>
      {| feed := feed l; pending := pending l; now := (now l + dt)%N;
         history := history l |}
  end.

Definition exec (l : loop) (ts : list tick) : loop := foldl step l ts.

(** Whether every event was accepted with no earlier handler in flight. *)
Fixpoint one_at_a_time (l : loop) (ts : list tick) : bool :=
  match ts with
  | [] => true
  | t :: ts' =>
      match t, feed l, pending l with
      | Deliver, _ :: _, _ :: _ => false
      | _, _, _ => one_at_a_time (step l t) ts'
      end
  end.

End Loop.

Definition subscribed_to (es : list Feed.event) : loop :=
  {| feed := es; pending := []; now := 0%N; history := [] |}.

(** The events the listener was invoked with, in order. *)
Definition handled (h : list happening) : list Feed.event :=
  omap (fun x => match x with Handle e => Some e | _ => None end) h.

(** What the handlers did, in order. *)
Definition observed (h : list happening) : list obs :=
  omap (fun x => match x with Did o => Some o | _ => None end) h.

(** The announcement of a change as every connection sees it: the name of
    the event and the record. *)
Definition headline (m : emission) : option (string * order) :=
  match dest m, body m with
  | ToAll, OrderEnvelope _ d _ => Some (event m, d)
  | ToAll, UpdateEnvelope _ d _ _ => Some (event m, d)
  | _, _ => None
  end.

Definition headlines (os : list obs) : list (string * order) :=
  omap headline (emissions os).

(** What the handling of [c] announces to every connection. *)
Definition announced (c : change) : list (string * order) :=
  if bool_decide (operationType c = "insert")
  then match fullDocument c with
       | Some d => [("order-created", d)]
       | None => []
       end
  else if bool_decide (operationType c = "update")
          || bool_decide (operationType c = "replace")
  then match fullDocument c with
       | Some d => [("order-updated", d)]
       | None => []
       end
  else if bool_decide (operationType c = "delete")
  then [("order-deleted",
         match fullDocumentBeforeChange c with
         | Some p => p
         | None => {| _id := documentKey c; customer_name := "Unknown";
                      product_name := "Unknown"; status := "deleted";
                      email := None |}
         end)]
  else [].

(** What the handling of the event [e] announces: nothing when it has no
    key. *)
Definition announced_by (e : Feed.event) : list (string * order) :=
  match Feed.documentKey e with
  | Some key => announced (Feed.keyed e key)
  | None => []
  end.

(** A program that announces no change, whatever its awaits are answered. *)
Inductive calm {A : Type} : prog A -> Prop :=
| calm_Ret a : calm (Ret a)
| calm_Raise e : calm (Raise e)
| calm_NewDate k : (∀ t, calm (k t)) -> calm (NewDate k)
| calm_IoEmit m k : headline m = None -> calm k -> calm (IoEmit m k)
| calm_Enter n k : calm k -> calm (Enter n k)
| calm_AwaitSendMail m k : (∀ r, calm (k r)) -> calm (AwaitSendMail m k)
| calm_AwaitStats k : (∀ r, calm (k r)) -> calm (AwaitStats k)
| calm_Yield k : calm k -> calm (Yield k).

(** A suspended handler that will announce no change when it resumes. *)
Definition calm_suspended (s : suspended) : Prop :=
  match s with
  | OnSendMail _ k => ∀ r, calm (k r)
  | OnStats k => ∀ r, calm (k r)
  | OnTurn k => calm k
  end.

(** Every handler in flight is calm, and what has been announced is what the
    events handled so far announce. *)
Definition in_order (l : loop) : Prop :=
  Forall calm_suspended (pending l) ∧
  headlines (observed (history l)) = flat_map announced_by (handled (history l)).

End EventLoop.

(** ** Sample data *)

Definition sample_order (i : string) : order :=
  {| _id := i; customer_name := "Ada"; product_name := "Lamp";
     status := "pending"; email := None |}.

Definition sample_insert (i : string) : change :=
  {| operationType := "insert"; fullDocument := Some (sample_order i);
     fullDocumentBeforeChange := None; documentKey := i |}.

(** The order [i] on its way, with the address of its customer. *)
Definition shipped_order (i : string) : order :=
  {| _id := i; customer_name := "Ada"; product_name := "Lamp";
     status := "shipped"; email := Some "ada@example.com" |}.

Definition delivered_order (i : string) : order :=
  {| _id := i; customer_name := "Ada"; product_name := "Lamp";
     status := "delivered"; email := Some "ada@example.com" |}.

(** The update event that reports the delivery of the order [i]. *)
Definition sample_delivery (i : string) : Feed.event :=
  {| Feed.operationType := "update";
     Feed.fullDocument := Some (delivered_order i);
     Feed.fullDocumentBeforeChange := Some (shipped_order i);
     Feed.documentKey := Some i |}.

(** The event that drops the collection: it has no document and no key. *)
Definition sample_drop : Feed.event :=
  {| Feed.operationType := "drop"; Feed.fullDocument := None;
     Feed.fullDocumentBeforeChange := None; Feed.documentKey := None |}.

(** * Properties *)

(** ** Running programs *)

Section RunLemmas.

Context {A B : Type} (E : environment).

Lemma run_bind (p : prog A) (f : A -> prog B) :
  run E (bind p f) =
  match run E p with
  | (t, Normal a) => let '(t', r) := run E (f a) in (t ++ t', r)
  | (t, Throw e) => (t, Throw e)
  end.
Proof.
  induction p as [a|e|k IH|m k IH|n k IH|m k IH|k IH|k IH]; simpl.
  - destruct (run E (f a)); reflexivity.
  - reflexivity.
  - apply IH.
  - rewrite IH. destruct (run E k) as [t [a|e]]; [destruct (run E (f a))|]; reflexivity.
  - rewrite IH. destruct (run E k) as [t [a|e]]; [destruct (run E (f a))|]; reflexivity.
  - rewrite IH. destruct (run E (k (smtp E m))) as [t [a|e]];
      [destruct (run E (f a))|]; reflexivity.
  - rewrite IH. destruct (run E (k (db E))) as [t [a|e]];
      [destruct (run E (f a))|]; reflexivity.
  - apply IH.
Qed.

Lemma run_try_catch (p : prog A) (h : jsError -> prog A) :
  run E (try_catch p h) =
  match run E p with
  | (t, Normal a) => (t, Normal a)
  | (t, Throw e) => let '(t', r) := run E (h e) in (t ++ t', r)
  end.
Proof.
  induction p as [a|e|k IH|m k IH|n k IH|m k IH|k IH|k IH]; simpl.
  - reflexivity.
  - destruct (run E (h e)); reflexivity.
  - apply IH.
  - rewrite IH. destruct (run E k) as [t [a|e]]; [|destruct (run E (h e))]; reflexivity.
  - rewrite IH. destruct (run E k) as [t [a|e]]; [|destruct (run E (h e))]; reflexivity.
  - rewrite IH. destruct (run E (k (smtp E m))) as [t [a|e]];
      [|destruct (run E (h e))]; reflexivity.
  - rewrite IH. destruct (run E (k (db E))) as [t [a|e]];
      [|destruct (run E (h e))]; reflexivity.
  - apply IH.
Qed.

End RunLemmas.

(** Run to its end, an awaited call does what the call does. *)
Lemma run_await {A : Type} (E : environment) (p : prog A) :
  run E (await p) = run E p.
Proof.
  unfold await. rewrite run_try_catch, run_bind.
  destruct (run E p) as [t [a|e]]; simpl; by rewrite app_nil_r.
Qed.

Lemma trace_await {A : Type} (E : environment) (p : prog A) :
  trace E (await p) = trace E p.
Proof. unfold trace. by rewrite run_await. Qed.

Lemma outcome_await {A : Type} (E : environment) (p : prog A) :
  outcome E (await p) = outcome E p.
Proof. unfold outcome. by rewrite run_await. Qed.

Lemma run_guarded (E : environment) (send : prog sendResult) :
  never_throws send ->
  run E (ChangeStreamService.guarded send) = (trace E send, Normal tt).
Proof.
  intros Hs. destruct (Hs E) as [a Ha].
  unfold ChangeStreamService.guarded, trace, outcome in *.
  rewrite run_try_catch, run_bind, run_await.
  destruct (run E send) as [t r]; simpl in *; subst r; simpl.
  by rewrite app_nil_r.
Qed.

(** Whatever a failing [send] throws is caught by the guard. *)
Lemma guarded_never_throws (send : prog sendResult) :
  never_throws (ChangeStreamService.guarded send).
Proof.
  intros E. exists tt. unfold ChangeStreamService.guarded, outcome.
  rewrite run_try_catch, run_bind, run_await.
  destruct (run E send) as [t [a|e]]; reflexivity.
Qed.

(** ** The mail service *)

Lemma run_sendEmail_unconfigured E this env to subject html text :
  EmailService.isConfigured this = false ->
  run E (EmailService.sendEmail this env to subject html text) =
  ([], Normal (SendSkipped "Email service not configured")).
Proof. intros H. unfold EmailService.sendEmail. by rewrite H. Qed.

Lemma run_sendEmail_configured E this env to subject html text :
  EmailService.isConfigured this = true ->
  let m := {| from := js_or (env !! "EMAIL_FROM") (env !! "EMAIL_USER");
              to := js_or (env !! "EMAIL_TO") to;
              subject := subject; html := html;
              text := if truthy text then default "" text
                      else EmailService.stripHtmlTags html |} in
  run E (EmailService.sendEmail this env to subject html text) =
  ([ObsSendMail m],
   Normal match smtp E m with
          | inr info => SendOk (messageId info) (response info) (envelope info)
          | inl error => SendFailed (message error) (code error)
          end).
Proof.
  intros H m. unfold EmailService.sendEmail. rewrite H. simpl. fold m.
  by destruct (smtp E m).
Qed.

Lemma sendEmail_never_throws this env to subject html text :
  never_throws (EmailService.sendEmail this env to subject html text).
Proof.
  intros E. unfold outcome.
  destruct (EmailService.isConfigured this) eqn:H.
  - rewrite run_sendEmail_configured by done. eauto.
  - rewrite run_sendEmail_unconfigured by done. eauto.
Qed.

(** A notification method enters, then defers to [sendEmail]. *)
Ltac notification_never_throws :=
  let E := fresh "E" in
  let a := fresh "a" in
  let Ha := fresh "Ha" in
  intros E; unfold outcome; simpl; rewrite run_await;
  match goal with
  | |- context [run E (EmailService.sendEmail ?this ?env ?to ?subject ?html ?text)] =>
      destruct (sendEmail_never_throws this env to subject html text E) as [a Ha];
      unfold outcome in Ha;
      destruct (run E (EmailService.sendEmail this env to subject html text));
      simpl in *; eauto
  end.

Lemma sendOrderCreatedEmail_never_throws this env o :
  never_throws (EmailService.sendOrderCreatedEmail this env o).
Proof. unfold EmailService.sendOrderCreatedEmail. notification_never_throws. Qed.

Lemma sendStatusChangeEmail_never_throws this env o old new :
  never_throws (EmailService.sendStatusChangeEmail this env o old new).
Proof. unfold EmailService.sendStatusChangeEmail. notification_never_throws. Qed.

Lemma sendOrderCancelledEmail_never_throws this env o :
  never_throws (EmailService.sendOrderCancelledEmail this env o).
Proof. unfold EmailService.sendOrderCancelledEmail. notification_never_throws. Qed.

Lemma trace_notification E (n : notification) (p : prog sendResult) :
  trace E (enter n ;;; await p) = ObsNotify n :: trace E p.
Proof. unfold trace. simpl. rewrite run_await. by destruct (run E p). Qed.

Lemma trace_sendEmail E this env to subject html text :
  trace E (EmailService.sendEmail this env to subject html text) =
  if EmailService.isConfigured this
  then [ObsSendMail
          {| from := js_or (env !! "EMAIL_FROM") (env !! "EMAIL_USER");
             to := js_or (env !! "EMAIL_TO") to;
             subject := subject; html := html;
             text := if truthy text then default "" text
                     else EmailService.stripHtmlTags html |}]
  else [].
Proof.
  unfold trace. destruct (EmailService.isConfigured this) eqn:H.
  - by rewrite run_sendEmail_configured.
  - by rewrite run_sendEmail_unconfigured.
Qed.

(** ** Broadcasts *)

(** C10: each of the three record broadcasts sends its record-scoped copy, and
    only that copy, to the room of the record under the event name
    ["order-update"], the operation being told apart by the [type] field of
    the payload; the copy for every connection goes out under the name of the
    operation. *)
Theorem record_scoped_copy_is_order_update (E : environment) (o : order)
    (previous : option order) :
  let room := ToRoom (WebSocketService.order_room (_id o)) in
  (room_copies (trace E (WebSocketService.broadcastOrderCreated o)) =
     [{| dest := room; event := "order-update";
         body := OrderEnvelope "order-created" o (clock E) |}] ∧
   broadcasts (trace E (WebSocketService.broadcastOrderCreated o)) =
     [{| dest := ToAll; event := "order-created";
         body := OrderEnvelope "order-created" o (clock E) |}]) ∧
  (room_copies (trace E (WebSocketService.broadcastOrderUpdated o previous)) =
     [{| dest := room; event := "order-update";
         body := UpdateEnvelope "order-updated" o previous (clock E) |}] ∧
   broadcasts (trace E (WebSocketService.broadcastOrderUpdated o previous)) =
     [{| dest := ToAll; event := "order-updated";
         body := UpdateEnvelope "order-updated" o previous (clock E) |}]) ∧
  (room_copies (trace E (WebSocketService.broadcastOrderDeleted o)) =
     [{| dest := room; event := "order-update";
         body := OrderEnvelope "order-deleted" o (clock E) |}] ∧
   broadcasts (trace E (WebSocketService.broadcastOrderDeleted o)) =
     [{| dest := ToAll; event := "order-deleted";
         body := OrderEnvelope "order-deleted" o (clock E) |}]).
Proof. repeat split; reflexivity. Qed.

(** ** Handling of a change *)

Lemma run_broadcastStats E :
  ∃ t, run E WebSocketService.broadcastStats = (t, Normal tt) ∧
       Forall (fun m => event m = "order-stats") (emissions t) ∧
       notifications t = [] ∧ mails t = [].
Proof.
  unfold WebSocketService.broadcastStats. simpl.
  destruct (db E) as [e|s]; simpl; eexists; (split; [reflexivity|]);
    repeat split; repeat constructor.
Qed.

(** Decides the comparisons of the switch on a known operation type. *)
Ltac decide_operation :=
  repeat match goal with
  | |- context [bool_decide (?a = ?b)] =>
      let v := eval vm_compute in (bool_decide (a = b)) in
      change (bool_decide (a = b)) with v
  end; cbv iota.

(** A handler followed by the statistics broadcast, inside the two guards of
    the listener. *)
Lemma run_then_stats (E : environment) (p : prog unit) :
  run E (try_catch
           (await (try_catch (p ;;; await WebSocketService.broadcastStats)
                     (fun _ => Ret tt)))
           (fun _ => Ret tt)) =
  match run E p with
  | (t, Normal _) => (t ++ trace E WebSocketService.broadcastStats, Normal tt)
  | (t, Throw _) => (t, Normal tt)
  end.
Proof.
  rewrite run_try_catch, run_await, run_try_catch, run_bind, run_await.
  unfold trace.
  destruct (run_broadcastStats E) as (ts & -> & _).
  destruct (run E p) as [t [[]|e]]; simpl; by rewrite ?app_nil_r.
Qed.

Lemma stats_trace_is_quiet (E : environment) :
  notifications (trace E WebSocketService.broadcastStats) = [] ∧
  mails (trace E WebSocketService.broadcastStats) = [].
Proof.
  unfold trace. by destruct (run_broadcastStats E) as (ts & -> & _ & ? & ?).
Qed.

Lemma notifications_app t1 t2 :
  notifications (t1 ++ t2) = notifications t1 ++ notifications t2.
Proof. apply omap_app. Qed.
Lemma mails_app t1 t2 : mails (t1 ++ t2) = mails t1 ++ mails t2.
Proof. apply omap_app. Qed.
Lemma emissions_app t1 t2 : emissions (t1 ++ t2) = emissions t1 ++ emissions t2.
Proof. apply omap_app. Qed.

(** C6: a delete change that carries no prior snapshot is handled, together
    with the statistics broadcast that follows it, with exactly one emission
    named ["order-deleted"]; it goes to every connection, its payload is a stub
    record with the id of the deleted record and the status ["deleted"]; no
    notification method is entered and nothing is handed to the mail
    transport. *)
Theorem delete_without_snapshot (emailService : EmailService.service)
    (env : gmap string string) (E : environment) (c : change) :
  operationType c = "delete" ->
  fullDocumentBeforeChange c = None ->
  let t := trace E (ChangeStreamService.on_change emailService env c) in
  ∃ stub,
    List.filter (named "order-deleted") (emissions t) =
      [{| dest := ToAll; event := "order-deleted";
          body := OrderEnvelope "order-deleted" stub (clock E) |}] ∧
    _id stub = documentKey c ∧
    status stub = "deleted" ∧
    notifications t = [] ∧
    mails t = [].
Proof.
  intros Hop Hprev t. subst t.
  unfold ChangeStreamService.on_change, ChangeStreamService.handleChange, trace.
  rewrite Hop, Hprev.
  change (bool_decide ("delete" = "insert")) with false.
  change (bool_decide ("delete" = "update")) with false.
  change (bool_decide ("delete" = "delete")) with true.
  cbv iota. rewrite run_try_catch, run_await, run_try_catch, run_bind, !run_await.
  destruct (run_broadcastStats E) as (ts & -> & Hev & Hn & Hm). simpl.
  assert (List.filter (named "order-deleted") (emissions ts) = []) as ->.
  { clear Hn Hm. induction Hev as [|m l Hm _ IH]; [reflexivity|].
    simpl. unfold named at 1. rewrite Hm. exact IH. }
  eexists. repeat split; try reflexivity; assumption.
Qed.

Lemma delete_without_snapshot_witness :
  let c := {| operationType := "delete"; fullDocument := None;
              fullDocumentBeforeChange := None; documentKey := "42" |} in
  let E := {| clock := 7%N; smtp := fun _ => inl TypeError; db := inr (3, [("pending", 3)]) |} in
  let t := trace E (ChangeStreamService.on_change EmailService.fresh ∅ c) in
  ∃ stub,
    List.filter (named "order-deleted") (emissions t) =
      [{| dest := ToAll; event := "order-deleted";
          body := OrderEnvelope "order-deleted" stub 7%N |}] ∧
    _id stub = "42" ∧ status stub = "deleted" ∧
    notifications t = [] ∧ mails t = [].
Proof.
  intros c E.
  exact (delete_without_snapshot EmailService.fresh ∅ E c eq_refl eq_refl).
Defined.

(** What handling an update does, when both snapshots are at hand. *)
Lemma run_handleUpdate emailService env E (d p : order) :
  let changed := bool_decide (status p ≠ status d) in
  run E (ChangeStreamService.handleUpdate emailService env (Some d) (Some p)) =
  (trace E (WebSocketService.broadcastOrderUpdated d (Some p)) ++
   (if changed && truthy (email d)
    then trace E (EmailService.sendStatusChangeEmail emailService env d
                    (status p) (status d))
    else []) ++
   (if changed && bool_decide (status d = "delivered")
    then trace E (WebSocketService.broadcastCustomMessage "order-delivered"
                    [("orderId", _id d); ("customer_name", customer_name d);
                     ("product_name", product_name d)])
    else []),
   Normal tt).
Proof.
  intros changed. unfold ChangeStreamService.handleUpdate. fold changed.
  rewrite run_bind.
  change (run E (WebSocketService.broadcastOrderUpdated d (Some p)))
    with (trace E (WebSocketService.broadcastOrderUpdated d (Some p)), Normal tt).
  cbv iota. rewrite run_bind.
  destruct changed, (truthy (email d)), (bool_decide (status d = "delivered"));
    cbn [andb]; rewrite ?run_guarded by apply sendStatusChangeEmail_never_throws;
    reflexivity.
Qed.

(** C4: for an update event that carries both snapshots, handled by the change
    listener.  When the previous snapshot has the same status as the document,
    no notification method is entered and nothing is handed to the mail
    transport; when the statuses differ and the document has an e-mail
    address, the status-change notification, and only it, is entered with the
    document and the two statuses; when the statuses differ and the new one is
    ["delivered"], the emissions to every connection are ["order-updated"]
    followed by ["order-delivered"], and after them what the statistics
    broadcast emits. *)
Theorem update_notifies_on_status_change (emailService : EmailService.service)
    (env : gmap string string) (E : environment) (c : change) (d p : order) :
  operationType c = "update" ->
  fullDocument c = Some d ->
  fullDocumentBeforeChange c = Some p ->
  let t := trace E (ChangeStreamService.on_change emailService env c) in
  (status p = status d -> notifications t = [] ∧ mails t = []) ∧
  (status p ≠ status d -> truthy (email d) = true ->
     notifications t = [StatusChangeEmail d (status p) (status d)]) ∧
  (status p ≠ status d -> status d = "delivered" ->
     broadcasts t =
       [{| dest := ToAll; event := "order-updated";
           body := UpdateEnvelope "order-updated" d (Some p) (clock E) |};
        {| dest := ToAll; event := "order-delivered";
           body := CustomMessage
                     [("orderId", _id d); ("customer_name", customer_name d);
                      ("product_name", product_name d)] (clock E) |}]
       ++ broadcasts (trace E WebSocketService.broadcastStats)).
Proof.
  intros Hop Hdoc Hprev t. subst t.
  unfold ChangeStreamService.on_change, ChangeStreamService.handleChange.
  rewrite Hop, Hdoc, Hprev. decide_operation.
  unfold trace at 1 2 3 4. rewrite run_then_stats, run_await, run_handleUpdate.
  cbn [fst]. destruct (stats_trace_is_quiet E) as [Hn Hm].
  unfold broadcasts.
  rewrite !notifications_app, !mails_app, !emissions_app, Hn, Hm, !app_nil_r.
  split; [|split].
  - intros Heq. rewrite bool_decide_eq_false_2 by (intros H; by apply H).
    split; reflexivity.
  - intros Hne Hmail. rewrite (bool_decide_eq_true_2 _ Hne), Hmail. cbn [andb].
    unfold EmailService.sendStatusChangeEmail.
    rewrite trace_notification, trace_sendEmail.
    destruct (EmailService.isConfigured emailService),
      (bool_decide (status d = "delivered")); reflexivity.
  - intros Hne Hdel.
    rewrite (bool_decide_eq_true_2 _ Hne), (bool_decide_eq_true_2 _ Hdel).
    cbn [andb]. unfold EmailService.sendStatusChangeEmail.
    rewrite trace_notification, trace_sendEmail, !List.filter_app.
    destruct (truthy (email d)), (EmailService.isConfigured emailService);
      reflexivity.
Qed.

Lemma update_notifies_on_status_change_witness :
  let d := {| _id := "42"; customer_name := "Ada"; product_name := "Lamp";
              status := "delivered"; email := Some "ada@example.com" |} in
  let p := {| _id := "42"; customer_name := "Ada"; product_name := "Lamp";
              status := "shipped"; email := Some "ada@example.com" |} in
  let c := {| operationType := "update"; fullDocument := Some d;
              fullDocumentBeforeChange := Some p; documentKey := "42" |} in
  let same := {| operationType := "update"; fullDocument := Some p;
                 fullDocumentBeforeChange := Some p; documentKey := "42" |} in
  let E := {| clock := 7%N; smtp := fun _ => inl TypeError;
              db := inr (3, [("delivered", 3)]) |} in
  let t := trace E (ChangeStreamService.on_change EmailService.fresh ∅ c) in
  notifications t = [StatusChangeEmail d "shipped" "delivered"] ∧
  event <$> broadcasts t = ["order-updated"; "order-delivered"; "order-stats"] ∧
  notifications
    (trace E (ChangeStreamService.on_change EmailService.fresh ∅ same)) = [].
Proof.
  intros d p c same E t.
  destruct (update_notifies_on_status_change EmailService.fresh ∅ E c d p
              eq_refl eq_refl eq_refl) as (_ & Hn & Hb).
  destruct (update_notifies_on_status_change EmailService.fresh ∅ E same p p
              eq_refl eq_refl eq_refl) as (Hs & _ & _).
  split; [|split].
  - apply Hn; [discriminate|reflexivity].
  - subst t. rewrite Hb; [reflexivity|discriminate|reflexivity].
  - apply Hs. reflexivity.
Defined.

(** An update that comes without a previous snapshot is broadcast and nothing
    more, whatever its status. *)
Lemma update_without_snapshot_is_silent emailService env E (d : order) :
  let t := trace E (ChangeStreamService.handleUpdate emailService env (Some d) None) in
  notifications t = [] ∧ mails t = [] ∧
  event <$> broadcasts t = ["order-updated"].
Proof. repeat split; reflexivity. Qed.

Lemma outcome_handleInsert emailService env E (d : order) :
  outcome E (ChangeStreamService.handleInsert emailService env (Some d)) = Normal tt.
Proof.
  unfold outcome, ChangeStreamService.handleInsert. rewrite run_bind.
  change (run E (WebSocketService.broadcastOrderCreated d))
    with (trace E (WebSocketService.broadcastOrderCreated d), Normal tt).
  cbv iota. destruct (truthy (email d)); [|reflexivity].
  by rewrite run_guarded by apply sendOrderCreatedEmail_never_throws.
Qed.

Lemma outcome_handleUpdate emailService env E (document previous : option order) :
  outcome E (ChangeStreamService.handleUpdate emailService env document previous)
  = Normal tt.
Proof.
  destruct document as [d|]; [|reflexivity].
  destruct previous as [p|]; [|reflexivity].
  unfold outcome. by rewrite run_handleUpdate.
Qed.

Lemma outcome_handleDelete emailService env E key (previous : option order) :
  outcome E (ChangeStreamService.handleDelete emailService env key previous)
  = Normal tt.
Proof.
  unfold outcome, ChangeStreamService.handleDelete. rewrite run_bind.
  destruct previous as [p|]; [|reflexivity].
  change (run E (WebSocketService.broadcastOrderDeleted p))
    with (trace E (WebSocketService.broadcastOrderDeleted p), Normal tt).
  cbv iota. destruct (truthy (email p)); [|reflexivity].
  by rewrite run_guarded by apply sendOrderCancelledEmail_never_throws.
Qed.

Lemma outcome_on_change emailService env E (c : change) :
  outcome E (ChangeStreamService.on_change emailService env c) = Normal tt.
Proof.
  unfold outcome, ChangeStreamService.on_change. rewrite run_try_catch.
  destruct (run E _) as [t [[]|e]]; reflexivity.
Qed.

(** C7: a mail service built without [EMAIL_USER] or [EMAIL_PASS] is not
    configured; on a service that is not configured each of the three
    notification methods hands nothing to the mail transport and resolves to
    the outcome "Email service not configured"; and, configured or not and
    whatever the transport answers, each notification method completes without
    throwing, as do the handlers of the change stream that call them and the
    change listener itself. *)
Theorem notifications_never_raise (this : EmailService.service)
    (env : gmap string string) (E : environment) (create verify : option jsError)
    (o : order) (old new : string) (previous : option order) (key : string)
    (c : change) :
  (truthy (env !! "EMAIL_USER") = false ∨ truthy (env !! "EMAIL_PASS") = false ->
   EmailService.isConfigured (EmailService.new_EmailService env create verify)
   = false) ∧
  (EmailService.isConfigured this = false ->
   run E (EmailService.sendOrderCreatedEmail this env o) =
     ([ObsNotify (OrderCreatedEmail o)],
      Normal (SendSkipped "Email service not configured")) ∧
   run E (EmailService.sendStatusChangeEmail this env o old new) =
     ([ObsNotify (StatusChangeEmail o old new)],
      Normal (SendSkipped "Email service not configured")) ∧
   run E (EmailService.sendOrderCancelledEmail this env o) =
     ([ObsNotify (OrderCancelledEmail o)],
      Normal (SendSkipped "Email service not configured"))) ∧
  ((∃ r, outcome E (EmailService.sendOrderCreatedEmail this env o) = Normal r) ∧
   (∃ r, outcome E (EmailService.sendStatusChangeEmail this env o old new)
         = Normal r) ∧
   (∃ r, outcome E (EmailService.sendOrderCancelledEmail this env o) = Normal r)) ∧
  (outcome E (ChangeStreamService.handleInsert this env (Some o)) = Normal tt ∧
   outcome E (ChangeStreamService.handleUpdate this env (Some o) previous)
   = Normal tt ∧
   outcome E (ChangeStreamService.handleDelete this env key previous) = Normal tt ∧
   outcome E (ChangeStreamService.on_change this env c) = Normal tt).
Proof.
  split; [|split; [|split]].
  - intros H. unfold EmailService.new_EmailService, EmailService.initializeTransporter.
    destruct H as [-> | ->]; [reflexivity|].
    by rewrite orb_true_r.
  - intros H.
    unfold EmailService.sendOrderCreatedEmail, EmailService.sendStatusChangeEmail,
      EmailService.sendOrderCancelledEmail, EmailService.sendEmail.
    rewrite H. repeat split; reflexivity.
  - split; [|split].
    + apply sendOrderCreatedEmail_never_throws.
    + apply sendStatusChangeEmail_never_throws.
    + apply sendOrderCancelledEmail_never_throws.
  - split; [|split; [|split]].
    + apply outcome_handleInsert.
    + apply outcome_handleUpdate.
    + apply outcome_handleDelete.
    + apply outcome_on_change.
Qed.

Lemma notifications_never_raise_witness :
  let o := {| _id := "42"; customer_name := "Ada"; product_name := "Lamp";
              status := "pending"; email := Some "ada@example.com" |} in
  let E := {| clock := 7%N; smtp := fun _ => inl TypeError; db := inl TypeError |} in
  EmailService.isConfigured (EmailService.new_EmailService ∅ None None) = false ∧
  run E (EmailService.sendOrderCreatedEmail EmailService.fresh ∅ o) =
    ([ObsNotify (OrderCreatedEmail o)],
     Normal (SendSkipped "Email service not configured")).
Proof.
  intros o E.
  destruct (notifications_never_raise EmailService.fresh ∅ E None None o
              "pending" "shipped" None "42"
              {| operationType := "insert"; fullDocument := Some o;
                 fullDocumentBeforeChange := None; documentKey := "42" |})
    as (Hcred & Hskip & _).
  split.
  - apply Hcred. left. reflexivity.
  - apply Hskip. reflexivity.
Defined.

(** C9: on a configured service, when [EMAIL_TO] holds a non-empty address,
    [sendEmail] hands exactly one message to the mail transport and that
    message is addressed to the configured address, whatever recipient the
    caller passed; so for the three notification methods the e-mail address of
    the order is not the destination. *)
Theorem email_to_overrides_recipient (this : EmailService.service)
    (env : gmap string string) (E : environment) (addr : string)
    (recipient : option string) (subject html : string) (text : option string)
    (o : order) (old new : string) :
  EmailService.isConfigured this = true ->
  env !! "EMAIL_TO" = Some addr ->
  addr ≠ "" ->
  to <$> mails (trace E (EmailService.sendEmail this env recipient subject html text))
    = [Some addr] ∧
  to <$> mails (trace E (EmailService.sendOrderCreatedEmail this env o))
    = [Some addr] ∧
  to <$> mails (trace E (EmailService.sendStatusChangeEmail this env o old new))
    = [Some addr] ∧
  to <$> mails (trace E (EmailService.sendOrderCancelledEmail this env o))
    = [Some addr].
Proof.
  intros Hc Hto Hne.
  assert (∀ r, js_or (env !! "EMAIL_TO") r = Some addr) as Hor.
  { intros r. unfold js_or. rewrite Hto. simpl. by rewrite bool_decide_eq_true_2. }
  unfold EmailService.sendOrderCreatedEmail, EmailService.sendStatusChangeEmail,
    EmailService.sendOrderCancelledEmail.
  rewrite !trace_notification, !trace_sendEmail, Hc. simpl.
  rewrite !Hor. repeat split; reflexivity.
Qed.

Lemma email_to_overrides_recipient_witness :
  let this := {| EmailService.transporter := true;
                 EmailService.isConfigured := true |} in
  let env : gmap string string := {[ "EMAIL_TO" := "ops@example.com" ]} in
  let E := {| clock := 7%N; smtp := fun _ => inl TypeError; db := inl TypeError |} in
  to <$> mails (trace E (EmailService.sendEmail this env
                           (Some "ada@example.com") "Hello" "<p>Hi</p>" None))
    = [Some "ops@example.com"].
Proof.
  intros this env E.
  apply (email_to_overrides_recipient this env E "ops@example.com"
           (Some "ada@example.com") "Hello" "<p>Hi</p>" None
           {| _id := "42"; customer_name := "Ada"; product_name := "Lamp";
              status := "pending"; email := Some "ada@example.com" |}
           "pending" "shipped");
    [reflexivity | reflexivity | discriminate].
Defined.

(** Without a non-empty [EMAIL_TO] the message goes to the recipient the
    caller passed. *)
Lemma email_to_unset_keeps_recipient (this : EmailService.service)
    (env : gmap string string) (E : environment) (recipient : option string)
    (subject html : string) (text : option string) :
  EmailService.isConfigured this = true ->
  truthy (env !! "EMAIL_TO") = false ->
  to <$> mails (trace E (EmailService.sendEmail this env recipient subject html text))
    = [recipient].
Proof.
  intros Hc Hto. rewrite trace_sendEmail, Hc. simpl. unfold js_or.
  by rewrite Hto.
Qed.

(** ** The connection registry *)

Lemma join_join socket room (r : WebSocketService.registry) :
  WebSocketService.join socket room (WebSocketService.join socket room r) =
  WebSocketService.join socket room r.
Proof.
  unfold WebSocketService.join. simpl. f_equal.
  rewrite lookup_insert_eq, insert_insert_eq. simpl. f_equal. set_solver.
Qed.

Lemma leave_absent socket room (r : WebSocketService.registry) :
  room ∉ default ∅ (WebSocketService.sids r !! socket) ->
  WebSocketService.leave socket room r = r.
Proof.
  intros H. unfold WebSocketService.leave. destruct r as [cc ss]. simpl in *.
  destruct (ss !! socket) as [rooms|] eqn:Hs; [|reflexivity].
  simpl in H. f_equal.
  replace (rooms ∖ {[room]}) with rooms by set_solver.
  by apply insert_id.
Qed.

(** C8: handling [subscribe-order] twice for the same connection and record id
    leaves the registry as handling it once does, and handling
    [unsubscribe-order] for a pair that is not subscribed leaves the registry as
    it was; both handlers are total functions of the registry, so neither
    raises. *)
Theorem subscription_is_idempotent (socket : string) (orderId : option string)
    (oid : string) (r : WebSocketService.registry) :
  (WebSocketService.on_subscribe_order socket orderId
     (WebSocketService.on_subscribe_order socket orderId r).1).1 =
  (WebSocketService.on_subscribe_order socket orderId r).1 ∧
  (¬ WebSocketService.subscribed socket oid r ->
   (WebSocketService.on_unsubscribe_order socket (Some oid) r).1 = r).
Proof.
  split.
  - unfold WebSocketService.on_subscribe_order.
    destruct orderId as [o|]; [|reflexivity].
    destruct (truthy (Some o)); [|reflexivity].
    simpl. apply join_join.
  - intros H. unfold WebSocketService.on_unsubscribe_order.
    destruct (truthy (Some oid)); [|reflexivity].
    simpl. by apply leave_absent.
Qed.

Lemma subscription_is_idempotent_witness :
  let r := {| WebSocketService.connectedClients := ∅;
              WebSocketService.sids := {[ "s1" := {[ "s1" ]} ]} |} in
  (WebSocketService.on_unsubscribe_order "s1" (Some "42") r).1 = r.
Proof.
  intros r.
  apply (subscription_is_idempotent "s1" (Some "42") "42" r).
  unfold WebSocketService.subscribed. vm_compute. set_solver.
Defined.

(** ** Lifecycle of the subscription *)

Import Lifecycle.

Lemma release_timers close w : timers (release close w) = timers w.
Proof.
  unfold release, close_stream. destruct (changeStream (this w)); [|reflexivity].
  by destruct close.
Qed.

Lemma release_retryCount close w :
  retryCount (this (release close w)) = retryCount (this w).
Proof.
  unfold release, close_stream. destruct (changeStream (this w)); [|reflexivity].
  by destruct close.
Qed.

Lemma watching_world_watching : watching watching_world.
Proof. split; [reflexivity|]. exists 0. split; [reflexivity|]. set_solver. Qed.

(** C1, as stated, fails: the feed of a watching service breaks, which
    schedules a retry in 5000 ms; then [stop()] is called and completes.  The
    retry is still pending after [stop()], and when it comes due the
    subscription is opened again and the service is running. *)
Lemma stop_leaves_retry_pending :
  let w1 := exec watching_world [StreamError None; CallStop None] in
  let w2 := exec w1 [Elapse 5000%N; TimerFires 0 None None] in
  ¬ (∀ close w, timers (stop close w) = []) ∧
  timers w1 = [{| due := 5000%N; delay := 5000%N |}] ∧
  isRunning (this w1) = false ∧
  attempts (log w2) = attempts (log w1) ++ [inr 1] ∧
  isRunning (this w2) = true ∧
  opened w2 = [1].
Proof.
  intros w1 w2. split; [|repeat split].
  intros H. specialize (H None (exec watching_world [StreamError None])).
  discriminate H.
Qed.

(** C1, amended: [stop()] marks the service as not running, closes the
    subscription it holds and forgets it, and leaves the pending retry timers
    and the retry count as they were. *)
Theorem stop_keeps_retry_timers (close : option jsError) (w : world) :
  isRunning (this (stop close w)) = false ∧
  changeStream (this (stop close w)) = None ∧
  (∀ s, changeStream (this w) = Some s ->
        Close s ∈ log (stop close w) ∧
        (close = None -> s ∉ opened (stop close w))) ∧
  timers (stop close w) = timers w ∧
  retryCount (this (stop close w)) = retryCount (this w).
Proof.
  unfold stop. rewrite release_timers, release_retryCount.
  unfold release, close_stream. simpl.
  destruct (changeStream (this w)) as [s|] eqn:Hs; simpl.
  - assert (∀ l : list action, Close s ∈ l ++ [Close s]) as Hin
      by (intros l; apply list_elem_of_In, in_app_iff; right; by left).
    destruct close; simpl; (split; [done|split; [done|split; [|done]]]);
      intros ? [= <-]; (split; [apply Hin|]); [done|]. intros _.
    rewrite list_elem_of_In, filter_In, Nat.eqb_refl. by intros [_ ?].
  - by repeat split.
Qed.

Lemma stop_keeps_retry_timers_witness :
  let w := exec watching_world [StreamError None] in
  timers (stop None w) = [{| due := 5000%N; delay := 5000%N |}] ∧
  Close 0 ∈ log (stop None watching_world) ∧
  0 ∉ opened (stop None watching_world).
Proof.
  intros w.
  destruct (stop_keeps_retry_timers None w) as (_ & _ & _ & Ht & _).
  destruct (stop_keeps_retry_timers None watching_world) as (_ & _ & Hc & _).
  destruct (Hc 0 eq_refl) as [Hlog Hop].
  split; [rewrite Ht; reflexivity|]. split; [exact Hlog|]. apply Hop. reflexivity.
Defined.

(** C5, as stated, fails: [start()] on a service that is watching stream 0
    opens stream 1 and holds it in place of stream 0, which it does not
    close. *)
Lemma start_while_watching_resubscribes :
  watching watching_world ∧
  ¬ (∀ watch close w, watching w -> start watch close w = w) ∧
  changeStream (this (start None None watching_world)) = Some 1 ∧
  opened (start None None watching_world) = [0; 1].
Proof.
  split; [exact watching_world_watching|]. split; [|split; reflexivity].
  intros H. specialize (H None None _ watching_world_watching). discriminate H.
Qed.

(** C5, amended: when [start()] is called on a watching service and the record
    store accepts the subscription, the service opens one more subscription
    and holds the new one; the one it held stays open at the driver, the
    service stays running with a retry count of 0, and no timer is added. *)
Theorem start_while_watching (close : option jsError) (w : world) :
  watching w ->
  let w' := start None close w in
  changeStream (this w') = Some (next_stream w) ∧
  opened w' = opened w ++ [next_stream w] ∧
  attempts (log w') = attempts (log w) ++ [inr (next_stream w)] ∧
  isRunning (this w') = true ∧
  retryCount (this w') = 0 ∧
  timers w' = timers w.
Proof.
  intros _ w'. subst w'. unfold start, startChangeStream. simpl.
  repeat split; try reflexivity.
  unfold attempts. rewrite omap_app. reflexivity.
Qed.

Lemma start_while_watching_witness :
  opened (start None None watching_world) = [0; 1] ∧
  changeStream (this (start None None watching_world)) = Some 1.
Proof.
  destruct (start_while_watching None watching_world watching_world_watching)
    as (Hc & Ho & _).
  split; [rewrite Ho; reflexivity | rewrite Hc; reflexivity].
Defined.

(** *** The retry schedule *)

Lemma release_idle close w :
  changeStream (this w) = None -> release close w = w.
Proof. unfold release. by intros ->. Qed.

Lemma omap_delays_app l1 l2 : delays (l1 ++ l2) = delays l1 ++ delays l2.
Proof. apply omap_app. Qed.
Lemma omap_attempts_app l1 l2 : attempts (l1 ++ l2) = attempts l1 ++ attempts l2.
Proof. apply omap_app. Qed.
Lemma omap_broadcast_events_app l1 l2 :
  broadcast_events (l1 ++ l2) = broadcast_events l1 ++ broadcast_events l2.
Proof. apply omap_app. Qed.

Lemma on_stream_error_retrying close w :
  retryCount (this w) = 0 -> timers w = [] -> 0 < maxRetries (this w) ->
  ∃ l, retrying (maxRetries (this w)) (retryDelay (this w)) w 0 l
         (on_stream_error close w) ∧
       delays l = [(retryDelay (this w) * 2 ^ 0)%N] ∧ attempts l = [] ∧
       broadcast_events l = [].
Proof.
  intros Hc Ht Hm. unfold on_stream_error, handleError, release, close_stream.
  destruct (changeStream (this w)) as [s|] eqn:Hs, close as [e|]; simpl;
    rewrite Hc;
    (destruct (Nat.ltb_spec 0 (maxRetries (this w))) as [_|]; [|lia]); simpl;
    eexists; (split; [constructor; cbn -[N.mul N.pow N.add];
                      rewrite ?Ht, ?Hs, ?N.add_0_r;
                      rewrite <- ?app_assoc; reflexivity|]);
    repeat split; reflexivity.
Qed.

Lemma retry_fails_fires e w d :
  timers w = [{| due := (now w + d)%N; delay := d |}] ->
  changeStream (this w) = None ->
  retry_fails e w =
  handleError None
    {| this := this w; opened := opened w; next_stream := next_stream w;
       timers := []; now := (now w + d)%N; log := log w ++ [Watch (inl e)] |}.
Proof.
  intros Ht Hs. unfold retry_fails, fire, elapse. rewrite Ht. simpl.
  replace (now w + d - now w)%N with d by lia.
  rewrite N.leb_refl. reflexivity.
Qed.

Lemma retry_fails_again e m b w0 c l w :
  retrying m b w0 c l w -> S c < m ->
  retrying m b w0 (S c)
    (l ++ [Watch (inl e); SetTimeout (b * 2 ^ N.of_nat (S c))%N])
    (retry_fails e w).
Proof.
  intros [Hs Hc Hm Hb Ht Hn Hl] Hlt.
  rewrite (retry_fails_fires e w _ Ht Hs).
  unfold handleError. rewrite release_idle by exact Hs.
  cbn [this with_this changeStream set_isRunning retryCount maxRetries retryDelay].
  rewrite Hc, Hm.
  destruct (Nat.ltb_spec (S c) m) as [_|]; [|lia].
  constructor; cbn [this with_this changeStream set_isRunning set_retryCount
    retryCount maxRetries retryDelay setTimeout record timers now log];
    try done; rewrite ?Hb; replace (S (S c) - 1) with (S c) by lia.
  - reflexivity.
  - cbn [backoff_total]. rewrite Hn. lia.
  - rewrite Hl, <- !app_assoc. reflexivity.
Qed.

Lemma retry_fails_last e m b w0 c l w :
  retrying m b w0 c l w -> S c = m ->
  let w' := retry_fails e w in
  timers w' = [] ∧
  now w' = (now w0 + backoff_total b m)%N ∧
  log w' = log w0 ++ l ++ [Watch (inl e); Broadcast (service_error_at (now w'))].
Proof.
  intros [Hs Hc Hm Hb Ht Hn Hl] Heq w'. subst w'.
  rewrite (retry_fails_fires e w _ Ht Hs).
  unfold handleError. rewrite release_idle by exact Hs.
  cbn [this with_this changeStream set_isRunning retryCount maxRetries retryDelay].
  rewrite Hc, Hm.
  destruct (Nat.ltb_spec (S c) m) as [|_]; [lia|].
  subst m. cbn. rewrite Hn, Hl, <- !app_assoc. repeat split; try reflexivity.
  rewrite <- Heq. cbn [backoff_total]. lia.
Qed.

Lemma failed_retries_S e b n :
  failed_retries e b (S n) =
  failed_retries e b n ++ [Watch (inl e); SetTimeout (b * 2 ^ N.of_nat (S n))%N].
Proof. unfold failed_retries. by rewrite seq_S, flat_map_app. Qed.

Lemma delays_failed_retries e b n :
  delays (failed_retries e b n) = (fun k => b * 2 ^ N.of_nat k)%N <$> seq 1 n.
Proof.
  induction n as [|n IH]; [reflexivity|].
  rewrite failed_retries_S, omap_delays_app, IH, seq_S, fmap_app. reflexivity.
Qed.

Lemma attempts_failed_retries e b n :
  attempts (failed_retries e b n) = repeat (inl e) n.
Proof.
  induction n as [|n IH]; [reflexivity|].
  rewrite failed_retries_S, omap_attempts_app, IH.
  symmetry. apply (repeat_cons n (inl e : jsError + streamId)).
Qed.

Lemma broadcast_events_failed_retries e b n :
  broadcast_events (failed_retries e b n) = [].
Proof.
  induction n as [|n IH]; [reflexivity|].
  by rewrite failed_retries_S, omap_broadcast_events_app, IH.
Qed.

Lemma consecutive_failures_retrying e m b w0 l0 w1 n :
  retrying m b w0 0 l0 w1 -> n < m ->
  retrying m b w0 n (l0 ++ failed_retries e b n) (consecutive_failures e n w1).
Proof.
  intros H1. induction n as [|n IH]; intros Hn.
  - unfold failed_retries. simpl. by rewrite app_nil_r.
  - change (consecutive_failures e (S n) w1)
      with (retry_fails e (consecutive_failures e n w1)).
    rewrite failed_retries_S, app_assoc.
    apply retry_fails_again; [apply IH; lia | exact Hn].
Qed.

Lemma on_stream_error_gives_up close w :
  retryCount (this w) = 0 -> maxRetries (this w) = 0 ->
  let w' := on_stream_error close w in
  timers w' = timers w ∧ now w' = now w ∧
  ∃ l, log w' = log w ++ l ∧ delays l = [] ∧ attempts l = [] ∧
       broadcast_events l = ["service-error"].
Proof.
  intros Hc Hm w'. subst w'.
  unfold on_stream_error, handleError, release, close_stream.
  destruct (changeStream (this w)) as [s|] eqn:Hs, close as [e|]; simpl;
    rewrite Hc, Hm; simpl; (split; [reflexivity|]); (split; [reflexivity|]);
    eexists; (split; [rewrite <- ?app_assoc; reflexivity|]);
    repeat split; reflexivity.
Qed.

(** C2: a service whose retry count is 0 and that has no timer pending loses
    its feed, and every resubscription fails.  With [m] the maximum number of
    retries and [b] the base delay: after [n < m] failed retries exactly one
    retry is pending, set with the delay [b * 2 ^ n], so retry number [k]
    waits [b * 2 ^ (k - 1)]; once [m] retries have failed the service has set
    the delays of retries [1] to [m] in that order and no other, has made
    exactly [m] resubscription attempts, has broadcast ["service-error"]
    exactly once, has no timer pending, so that nothing further can fire, and
    the clock stands at the sum of the delays.  The constructor sets [m = 5]
    and [b = 5000] ms, for which the delays are 5, 10, 20, 40 and 80 s. *)
Theorem retries_back_off_then_give_up (e : jsError) (close : option jsError)
    (w : world) :
  retryCount (this w) = 0 ->
  timers w = [] ->
  let m := maxRetries (this w) in
  let b := retryDelay (this w) in
  let failed n := consecutive_failures e n (on_stream_error close w) in
  (∀ n, n < m -> delay <$> timers (failed n) = [(b * 2 ^ N.of_nat n)%N]) ∧
  (∃ new,
     log (failed m) = log w ++ new ∧
     delays new = (fun k => b * 2 ^ N.of_nat (k - 1))%N <$> seq 1 m ∧
     attempts new = repeat (inl e) m ∧
     broadcast_events new = ["service-error"]) ∧
  timers (failed m) = [] ∧
  (∀ i watch close', fire i watch close' (failed m) = failed m) ∧
  retry_fails e (failed m) = failed m ∧
  now (failed m) = (now w + backoff_total b m)%N ∧
  (maxRetries new_ChangeStreamService = 5 ∧
   retryDelay new_ChangeStreamService = 5000%N ∧
   (fun k => 5000 * 2 ^ N.of_nat (k - 1))%N <$> seq 1 5
   = [5000; 10000; 20000; 40000; 80000]%N).
Proof.
  intros Hc Ht m b failed.
  assert (timers (failed m) = [] ->
          (∀ i watch close', fire i watch close' (failed m) = failed m) ∧
          retry_fails e (failed m) = failed m) as Hquiet.
  { intros H0. split; [intros i watch close'|]; unfold retry_fails, fire;
      by rewrite H0. }
  assert (∀ k, (fun j => b * 2 ^ N.of_nat j)%N <$> seq 0 k
               = (fun j => b * 2 ^ N.of_nat (j - 1))%N <$> seq 1 k) as Hshift.
  { intros k. rewrite <- (fmap_S_seq 0 k), <- list_fmap_compose.
    apply list_fmap_ext. intros _ j _. simpl. by rewrite Nat.sub_0_r. }
  destruct (Nat.eq_dec m 0) as [Hm0|Hm0].
  - (* no retry allowed *)
    destruct (on_stream_error_gives_up close w Hc Hm0)
      as (Ht' & Hn' & l & Hl & Hd & Ha & Hb).
    rewrite Ht in Ht'. clearbody m. subst m.
    change (failed 0) with (on_stream_error close w) in *.
    split; [intros n Hn; lia|].
    split; [exists l; done|].
    split; [done|]. split; [by apply Hquiet|]. split; [by apply Hquiet|].
    split; [cbn [backoff_total]; lia|]. by vm_compute.
  - destruct (on_stream_error_retrying close w Hc Ht ltac:(fold m; lia))
      as (l0 & Hretry & Hd0 & Ha0 & Hb0).
    fold m b in Hretry, Hd0.
    assert (∀ n, n < m ->
              retrying m b w n (l0 ++ failed_retries e b n) (failed n)) as Hinv
      by (intros n Hn; by apply consecutive_failures_retrying).
    destruct m as [|m']; [done|].
    destruct (Hinv m' ltac:(lia)) as [Hs' Hc' Hm' Hb' Ht' Hn' Hl'].
    pose proof (retry_fails_last e (S m') b w m' _ (failed m')
                  (Hinv m' ltac:(lia)) eq_refl) as (Hlt & Hln & Hll).
    change (retry_fails e (failed m')) with (failed (S m')) in Hlt, Hln, Hll.
    split; [|split; [|split; [|split; [|split; [|split]]]]].
    + intros n Hn. destruct (Hinv n Hn) as [_ _ _ _ Htn _ _]. by rewrite Htn.
    + eexists. split; [exact Hll|].
      rewrite !omap_delays_app, !omap_attempts_app, !omap_broadcast_events_app.
      rewrite Hd0, Ha0, Hb0, delays_failed_retries, attempts_failed_retries,
        broadcast_events_failed_retries.
      split; [|split; [|reflexivity]].
      * rewrite <- Hshift. change (seq 0 (S m')) with (0 :: seq 1 m').
        rewrite fmap_cons. cbn [delays omap app]. by rewrite app_nil_r.
      * cbn [attempts omap app].
        symmetry. apply (repeat_cons m' (inl e : jsError + streamId)).
    + exact Hlt.
    + by apply Hquiet.
    + by apply Hquiet.
    + exact Hln.
    + by vm_compute.
Qed.

Lemma retries_back_off_then_give_up_witness :
  let failed n :=
    consecutive_failures TypeError n (on_stream_error None watching_world) in
  (∃ new,
     log (failed 5) = log watching_world ++ new ∧
     delays new = [5000; 10000; 20000; 40000; 80000]%N ∧
     attempts new = repeat (inl TypeError) 5 ∧
     broadcast_events new = ["service-error"]) ∧
  timers (failed 5) = [] ∧
  now (failed 5) = 155000%N.
Proof.
  intros failed.
  pose proof (retries_back_off_then_give_up TypeError None watching_world
                eq_refl eq_refl) as H.
  cbv zeta in H.
  change (maxRetries (this watching_world)) with 5 in H.
  change (retryDelay (this watching_world)) with 5000%N in H.
  destruct H as (_ & (new & Hl & Hd & Ha & Hb) & Ht & _ & _ & Hn & _ & _ & Hdef).
  split; [|split].
  - exists new. split; [exact Hl|]. split; [|split; assumption].
    rewrite Hd. exact Hdef.
  - exact Ht.
  - subst failed. cbv beta. rewrite Hn. vm_compute. reflexivity.
Defined.

(** ** The change listener in the event loop *)

Section Ordering.

Variable emailService : EmailService.service.
Variable env : gmap string string.

Lemma handled_app h1 h2 :
  EventLoop.handled (h1 ++ h2) = EventLoop.handled h1 ++ EventLoop.handled h2.
Proof. apply omap_app. Qed.

Lemma handled_did (os : list obs) : EventLoop.handled (EventLoop.Did <$> os) = [].
Proof. induction os as [|o os IH]; [reflexivity|exact IH]. Qed.

Lemma proceed_feed l rest p :
  EventLoop.feed (EventLoop.proceed l rest p) = EventLoop.feed l ∧
  EventLoop.handled (EventLoop.history (EventLoop.proceed l rest p)) =
  EventLoop.handled (EventLoop.history l).
Proof.
  unfold EventLoop.proceed. destruct (EventLoop.advance _ p) as [os s]. simpl.
  by rewrite handled_app, handled_did, app_nil_r.
Qed.

Lemma step_keeps_order l t :
  EventLoop.handled (EventLoop.history (EventLoop.step emailService env l t)) ++ EventLoop.feed (EventLoop.step emailService env l t) =
  EventLoop.handled (EventLoop.history l) ++ EventLoop.feed l.
Proof.
  destruct t as [|i r|i r|i|dt]; simpl.
  - unfold EventLoop.deliver. destruct (EventLoop.feed l) as [|e es] eqn:Hf.
    + by rewrite Hf.
    + destruct (proceed_feed
                  {| EventLoop.feed := es; EventLoop.pending := EventLoop.pending l;
                     EventLoop.now := EventLoop.now l;
                     EventLoop.history := EventLoop.history l ++ [EventLoop.Handle e] |}
                  (EventLoop.pending l)
                  (ChangeStreamService.on_event emailService env e)) as [-> ->].
      simpl. by rewrite handled_app, <- app_assoc.
  - destruct (EventLoop.pending l !! i) as [[m k|k|k]|]; try reflexivity.
    by destruct (proceed_feed l (delete i (EventLoop.pending l)) (k r)) as [-> ->].
  - destruct (EventLoop.pending l !! i) as [[m k|k|k]|]; try reflexivity.
    by destruct (proceed_feed l (delete i (EventLoop.pending l)) (k r)) as [-> ->].
  - destruct (EventLoop.pending l !! i) as [[m k|k|k]|]; try reflexivity.
    by destruct (proceed_feed l (delete i (EventLoop.pending l)) k) as [-> ->].
  - reflexivity.
Qed.

Lemma exec_keeps_order ts : ∀ l,
  EventLoop.handled (EventLoop.history (EventLoop.exec emailService env l ts)) ++ EventLoop.feed (EventLoop.exec emailService env l ts) =
  EventLoop.handled (EventLoop.history l) ++ EventLoop.feed l.
Proof.
  induction ts as [|t ts IH]; intros l; [reflexivity|].
  unfold EventLoop.exec in *. simpl. rewrite IH. apply step_keeps_order.
Qed.

End Ordering.

(** C3, as stated, fails.  The feed delivers the update that reports the
    delivery of order 7, then the insert of order 8.  The handler of the
    update has announced ["order-updated"] and entered the status-change
    notification when it reaches its first await; the insert is accepted
    there, with the handler of the update in flight, and its
    ["order-created"] goes out.  The ["order-delivered"] broadcast of order 7,
    which is part of the handling of the update, goes out only once that
    handler has gone on past its awaits: after the announcement of event 8.
    This is so when the mail service is not configured, where the handler
    awaits a notification method that settles at once, and when it is
    configured, where the handler waits for the answer of the mail
    transport. *)
Lemma delivery_announced_after_next_insert :
  let configured := {| EmailService.transporter := true;
                       EmailService.isConfigured := true |} in
  let sent l := (fun m => (event m, dest m)) <$>
                  emissions (EventLoop.observed (EventLoop.history l)) in
  let l0 := EventLoop.subscribed_to
              [sample_delivery "7"; Feed.of_change (sample_insert "8")] in
  let l1 := EventLoop.step EmailService.fresh ∅ l0 EventLoop.Deliver in
  let l2 := EventLoop.step EmailService.fresh ∅ l1 EventLoop.Deliver in
  let l3 := EventLoop.exec EmailService.fresh ∅ l2
              [EventLoop.Resume 0; EventLoop.Resume 1] in
  let m2 := EventLoop.exec configured ∅ l0 [EventLoop.Deliver; EventLoop.Deliver] in
  let m3 := EventLoop.exec configured ∅ m2
              [EventLoop.MailSettles 0 (inl TypeError);
               EventLoop.Resume 1; EventLoop.Resume 1] in
  sent l1 = [("order-updated", ToAll); ("order-update", ToRoom "order-7")] ∧
  length (EventLoop.pending l1) = 1 ∧
  EventLoop.handled (EventLoop.history l2) =
    [sample_delivery "7"; Feed.of_change (sample_insert "8")] ∧
  length (EventLoop.pending l2) = 2 ∧
  sent l3 =
    [("order-updated", ToAll); ("order-update", ToRoom "order-7");
     ("order-created", ToAll); ("order-update", ToRoom "order-8");
     ("order-delivered", ToAll)] ∧
  length (mails (EventLoop.observed (EventLoop.history m2))) = 1 ∧
  sent m3 = sent l3 ∧
  EventLoop.one_at_a_time EmailService.fresh ∅ l0
    [EventLoop.Deliver; EventLoop.Deliver] = false ∧
  ¬ (∀ es env events ts,
       EventLoop.one_at_a_time es env (EventLoop.subscribed_to events) ts = true).
Proof.
  intros configured sent l0 l1 l2 l3 m2 m3.
  split; [reflexivity|]. split; [reflexivity|]. split; [reflexivity|].
  split; [reflexivity|]. split; [reflexivity|]. split; [reflexivity|].
  split; [reflexivity|]. split; [reflexivity|].
  intros H.
  specialize (H EmailService.fresh ∅
                [sample_delivery "7"; Feed.of_change (sample_insert "8")]
                [EventLoop.Deliver; EventLoop.Deliver]).
  discriminate H.
Qed.

(** The first turn of the listener on an event that carries its key. *)
Lemma on_event_keyed emailService env (e : Feed.event) (key : string) :
  Feed.documentKey e = Some key ->
  ChangeStreamService.on_event emailService env e =
  ChangeStreamService.on_change emailService env (Feed.keyed e key).
Proof.
  intros H. unfold ChangeStreamService.on_event, ChangeStreamService.handleEvent,
    ChangeStreamService.on_change. by rewrite H.
Qed.

(** C3, amended: whatever the schedule, the listener is invoked with the
    events in exactly the order of the feed: the events handled so far,
    followed by those not yet delivered, are the feed.  When an event is
    accepted its handler runs at once up to its first await, and no further.
    For an insert, an update and a replace that carry their document, and for
    a delete with or without the prior snapshot, this first turn begins with
    the broadcast of the change to every connection; what follows the first
    await (the notification send, the order-delivered broadcast, the
    statistics broadcast) is not waited for before the next event is
    accepted. *)
Theorem events_handled_in_feed_order (emailService : EmailService.service)
    (env : gmap string string) (events : list Feed.event)
    (ts : list EventLoop.tick) :
  (let l := EventLoop.exec emailService env (EventLoop.subscribed_to events) ts in
   EventLoop.handled (EventLoop.history l) ++ EventLoop.feed l = events) ∧
  (∀ l e rest,
     EventLoop.feed l = e :: rest ->
     let l' := EventLoop.step emailService env l EventLoop.Deliver in
     EventLoop.feed l' = rest ∧
     EventLoop.history l' =
       EventLoop.history l ++
       EventLoop.Handle e ::
       (EventLoop.Did <$>
          (EventLoop.advance (EventLoop.now l)
             (ChangeStreamService.on_event emailService env e)).1)) ∧
  (∀ t e key,
     Feed.documentKey e = Some key ->
     let first_turn :=
       (EventLoop.advance t (ChangeStreamService.on_event emailService env e)).1 in
     (∀ d, Feed.operationType e = "insert" -> Feed.fullDocument e = Some d ->
        ∃ os, first_turn =
          ObsEmit {| dest := ToAll; event := "order-created";
                     body := OrderEnvelope "order-created" d t |} :: os) ∧
     (∀ d, Feed.operationType e = "update" ∨ Feed.operationType e = "replace" ->
        Feed.fullDocument e = Some d ->
        ∃ os, first_turn =
          ObsEmit {| dest := ToAll; event := "order-updated";
                     body := UpdateEnvelope "order-updated" d
                               (Feed.fullDocumentBeforeChange e) t |} :: os) ∧
     (Feed.operationType e = "delete" ->
        ∃ os, first_turn =
          ObsEmit {| dest := ToAll; event := "order-deleted";
                     body := OrderEnvelope "order-deleted"
                               (match Feed.fullDocumentBeforeChange e with
                                | Some p => p
                                | None => {| _id := key; customer_name := "Unknown";
                                             product_name := "Unknown";
                                             status := "deleted"; email := None |}
                                end) t |} :: os)).
Proof.
  split; [|split].
  - cbv zeta. rewrite exec_keeps_order. reflexivity.
  - intros l e rest Hf l'. subst l'. simpl. unfold EventLoop.deliver.
    rewrite Hf. unfold EventLoop.proceed.
    destruct (EventLoop.advance _ _) as [os s]. simpl.
    split; [reflexivity|]. by rewrite <- app_assoc.
  - intros t e key Hkey first_turn. subst first_turn.
    rewrite (on_event_keyed _ _ _ _ Hkey).
    unfold ChangeStreamService.on_change, ChangeStreamService.handleChange,
      Feed.keyed.
    cbn [operationType fullDocument fullDocumentBeforeChange documentKey].
    split; [|split].
    + intros d Hop Hdoc. rewrite Hop, Hdoc. decide_operation.
      unfold await, ChangeStreamService.handleInsert. simpl.
      destruct (EventLoop.advance t _) as [os s]. by eexists.
    + intros d [Hop|Hop] Hdoc; rewrite Hop, Hdoc; decide_operation;
        unfold await, ChangeStreamService.handleReplace,
          ChangeStreamService.handleUpdate, await; simpl;
        destruct (EventLoop.advance t _) as [os s]; by eexists.
    + intros Hop. rewrite Hop. decide_operation.
      unfold await, ChangeStreamService.handleDelete. simpl.
      destruct (EventLoop.advance t _) as [os s]. by eexists.
Qed.

Lemma events_handled_in_feed_order_witness :
  let events := [sample_delivery "7"; Feed.of_change (sample_insert "8")] in
  let l0 := EventLoop.subscribed_to events in
  let l1 := EventLoop.step EmailService.fresh ∅ l0 EventLoop.Deliver in
  EventLoop.feed l1 = [Feed.of_change (sample_insert "8")] ∧
  ∃ os, (EventLoop.advance 0%N
           (ChangeStreamService.on_event EmailService.fresh ∅ (sample_delivery "7"))).1
        = ObsEmit {| dest := ToAll; event := "order-updated";
                     body := UpdateEnvelope "order-updated" (delivered_order "7")
                               (Some (shipped_order "7")) 0%N |}
          :: os.
Proof.
  intros events l0 l1.
  destruct (events_handled_in_feed_order EmailService.fresh ∅ events [])
    as (_ & Hstep & Hturn).
  split.
  - apply (Hstep l0 (sample_delivery "7") [Feed.of_change (sample_insert "8")] eq_refl).
  - destruct (Hturn 0%N (sample_delivery "7") "7" eq_refl) as (_ & Hupdate & _).
    apply (Hupdate (delivered_order "7")); [by left | reflexivity].
Defined.

(** * Further properties of the services *)

(** ** EmailService *)

(** X1: when the constructor returns, the mail service is not configured,
    whatever the environment holds: the verification that
    [initializeTransporter] has started is not awaited.  The state reached
    once that verification has settled is the one [verifyConnection] gives
    from there: the service is then configured exactly when [EMAIL_USER] and
    [EMAIL_PASS] are both non-empty, the call creating the transport did not
    throw and the verification succeeded.  When the creating call throws, the
    service stays as the constructor set it, without transport and not
    configured, whatever the verification would have answered. *)
Theorem configured_only_once_verified (env : gmap string string)
    (create verify : option jsError) :
  let returned := EmailService.constructed env create in
  let settled := EmailService.new_EmailService env create verify in
  EmailService.isConfigured returned = false ∧
  settled = EmailService.verifyConnection verify returned ∧
  (EmailService.isConfigured settled = true ↔
     truthy (env !! "EMAIL_USER") = true ∧ truthy (env !! "EMAIL_PASS") = true ∧
     create = None ∧ verify = None) ∧
  (create ≠ None -> returned = EmailService.fresh ∧ settled = EmailService.fresh) ∧
  (EmailService.isConfigured settled = true -> EmailService.transporter settled = true).
Proof.
  unfold EmailService.constructed, EmailService.new_EmailService,
    EmailService.initializeTransporter, EmailService.verifyConnection.
  destruct (truthy (env !! "EMAIL_USER")), (truthy (env !! "EMAIL_PASS")),
    create, verify; simpl; repeat split; try done;
    try (intros (? & ? & ? & ?); done).
Qed.

Lemma configured_only_once_verified_witness :
  let env : gmap string string :=
    {[ "EMAIL_USER" := "shop@example.com"; "EMAIL_PASS" := "secret" ]} in
  EmailService.constructed env (Some TypeError) = EmailService.fresh ∧
  EmailService.new_EmailService env (Some TypeError) None = EmailService.fresh.
Proof.
  intros env.
  destruct (configured_only_once_verified env (Some TypeError) None)
    as (_ & _ & _ & Hf & _).
  by apply Hf.
Defined.

(** X2: one call of [sendEmail] hands at most one message to the mail
    transport and always resolves; it resolves to a success exactly when the
    service is configured and the transport accepted that message, and when
    the transport rejects the message the result carries the message and the
    code of the rejection. *)
Theorem sendEmail_succeeds_iff_accepted (this : EmailService.service)
    (env : gmap string string) (E : environment) (recipient : option string)
    (subject html : string) (text : option string) :
  let p := EmailService.sendEmail this env recipient subject html text in
  length (mails (trace E p)) ≤ 1 ∧
  ∃ r, outcome E p = Normal r ∧
    (success r = true ↔
       EmailService.isConfigured this = true ∧
       ∃ m info, mails (trace E p) = [m] ∧ smtp E m = inr info) ∧
    (∀ m e, mails (trace E p) = [m] -> smtp E m = inl e ->
            r = SendFailed (message e) (code e)).
Proof.
  intros p. subst p. unfold trace, outcome.
  destruct (EmailService.isConfigured this) eqn:Hc.
  - rewrite run_sendEmail_configured by done. cbn [fst snd mails omap].
    split; [simpl; lia|].
    match goal with |- context [smtp E ?m] => set (m0 := m) end.
    destruct (smtp E m0) as [e|info] eqn:Hs; eexists; (split; [reflexivity|]); split.
    + split; [discriminate|]. intros (_ & m & info & [= <-] & H). congruence.
    + intros m e' [= <-] H. congruence.
    + split; [|done]. intros _. split; [done|]. by exists m0, info.
    + intros m e' [= <-] H. congruence.
  - rewrite run_sendEmail_unconfigured by done. cbn [fst snd mails omap].
    split; [simpl; lia|]. eexists; split; [reflexivity|]. split.
    + split; [discriminate|]. intros [? _]. discriminate.
    + intros m e [=].
Qed.

Lemma sendEmail_succeeds_iff_accepted_witness :
  let this := {| EmailService.transporter := true;
                 EmailService.isConfigured := true |} in
  let E := {| clock := 7%N;
              smtp := fun _ => inl {| message := "Mailbox unavailable"; code := "EENVELOPE" |};
              db := inl TypeError |} in
  outcome E (EmailService.sendEmail this ∅ (Some "ada@example.com") "Hello"
               "<p>Hi</p>" None)
  = Normal (SendFailed "Mailbox unavailable" "EENVELOPE").
Proof.
  intros this E.
  destruct (sendEmail_succeeds_iff_accepted this ∅ E (Some "ada@example.com")
              "Hello" "<p>Hi</p>" None) as (_ & r & Hr & _ & Hfail).
  rewrite Hr. f_equal.
  exact (Hfail _ {| message := "Mailbox unavailable"; code := "EENVELOPE" |}
           eq_refl eq_refl).
Defined.

Lemma append_nil_r (s : string) : s +:+ "" = s.
Proof.
  induction s as [|c s IH]; [reflexivity|].
  change (String c (s +:+ "") = String c s). by rewrite IH.
Qed.

Lemma append_assoc (s1 s2 s3 : string) : (s1 +:+ s2) +:+ s3 = s1 +:+ (s2 +:+ s3).
Proof.
  induction s1 as [|c s1 IH]; [reflexivity|].
  change (String c ((s1 +:+ s2) +:+ s3) = String c (s1 +:+ (s2 +:+ s3))).
  by rewrite IH.
Qed.

Lemma strip_tags_plain (a b : string) :
  EmailService.occurs "<" a = false ->
  EmailService.strip_tags None (a +:+ b) = a +:+ EmailService.strip_tags None b.
Proof.
  induction a as [|c a IH]; [reflexivity|]. simpl. intros H.
  apply orb_false_elim in H as [Hc Ha]. rewrite Hc. simpl. by rewrite IH.
Qed.

Lemma strip_tags_close (buf t b : string) :
  EmailService.occurs ">" t = false ->
  EmailService.strip_tags (Some buf) (t +:+ String ">" b)
  = EmailService.strip_tags None b.
Proof.
  revert buf. induction t as [|c t IH]; intros buf; [reflexivity|]. simpl.
  intros H. apply orb_false_elim in H as [Hc Ht]. rewrite Hc. by apply IH.
Qed.

Lemma strip_tags_unclosed (buf t : string) :
  EmailService.occurs ">" t = false ->
  EmailService.strip_tags (Some buf) t = buf +:+ t.
Proof.
  revert buf. induction t as [|c t IH]; intros buf; simpl.
  - by rewrite append_nil_r.
  - intros H. apply orb_false_elim in H as [Hc Ht]. rewrite Hc, IH by done.
    by rewrite append_assoc.
Qed.

Lemma has_whitespace_cons (c : Ascii.ascii) (s : string) :
  EmailService.has_whitespace (String c s) = false ->
  EmailService.is_whitespace (String c s) = 0 ∧
  EmailService.has_whitespace s = false.
Proof.
  intros H. change (negb (Nat.eqb (EmailService.is_whitespace (String c s)) 0)
                    || EmailService.has_whitespace s = false) in H.
  apply orb_false_elim in H as [Hc Hs]. split; [|exact Hs].
  apply Nat.eqb_eq. by destruct (Nat.eqb _ 0).
Qed.

Lemma collapse_spaces_plain (in_run : bool) (s : string) :
  EmailService.has_whitespace s = false ->
  EmailService.collapse_spaces 0 in_run s = s.
Proof.
  revert in_run. induction s as [|c s IH]; intros in_run; [reflexivity|].
  intros H. apply has_whitespace_cons in H as [Hc Hs].
  cbn [EmailService.collapse_spaces]. rewrite Hc. by rewrite IH.
Qed.

Lemma trim_start_plain (s : string) :
  EmailService.has_whitespace s = false -> EmailService.trim_start 0 s = s.
Proof.
  destruct s as [|c s]; [reflexivity|]. intros H.
  apply has_whitespace_cons in H as [Hc _].
  cbn [EmailService.trim_start]. by rewrite Hc.
Qed.

Lemma trim_end_plain (s : string) :
  EmailService.has_whitespace s = false -> EmailService.trim_end s = s.
Proof.
  induction s as [|c s IH]; [reflexivity|]. intros H.
  cbn [EmailService.trim_end]. unfold EmailService.blank.
  rewrite (trim_start_plain _ H).
  apply has_whitespace_cons in H as [_ Hs]. by rewrite IH.
Qed.

Lemma trim_plain (s : string) :
  EmailService.has_whitespace s = false -> EmailService.trim s = s.
Proof.
  intros H. unfold EmailService.trim.
  rewrite (trim_start_plain s H). by apply trim_end_plain.
Qed.

(** X3: [stripHtmlTags] removes a tag: for text [a] without ["<"] and a tag
    body [t] without [">"], stripping [a<t>b] gives what stripping [ab] gives.
    A ["<"] that no [">"] follows is not a tag: it and the text after it are
    kept by the tag removal.  Text with neither ["<"] nor a whitespace
    character, of one byte or more, comes back unchanged. *)
Theorem stripHtmlTags_removes_tags (a t b : string) :
  (EmailService.occurs "<" a = false -> EmailService.occurs ">" t = false ->
   EmailService.stripHtmlTags (a +:+ "<" +:+ t +:+ ">" +:+ b)
   = EmailService.stripHtmlTags (a +:+ b)) ∧
  (EmailService.occurs "<" a = false -> EmailService.occurs ">" t = false ->
   EmailService.strip_tags None (a +:+ "<" +:+ t) = a +:+ "<" +:+ t) ∧
  (EmailService.occurs "<" a = false -> EmailService.has_whitespace a = false ->
   EmailService.stripHtmlTags a = a).
Proof.
  split; [|split].
  - intros Ha Ht. unfold EmailService.stripHtmlTags.
    rewrite (strip_tags_plain a b Ha), (strip_tags_plain a _ Ha). do 3 f_equal.
    change ("<" +:+ t +:+ ">" +:+ b) with (String "<" (t +:+ String ">" b)).
    cbn [EmailService.strip_tags]. change (Ascii.eqb "<" "<") with true.
    cbv iota. by rewrite strip_tags_close.
  - intros Ha Ht. rewrite strip_tags_plain by done. f_equal.
    change ("<" +:+ t) with (String "<" t).
    cbn [EmailService.strip_tags]. change (Ascii.eqb "<" "<") with true.
    cbv iota. by rewrite strip_tags_unclosed.
  - intros Ha Hw. unfold EmailService.stripHtmlTags.
    rewrite <- (append_nil_r a) at 1. rewrite strip_tags_plain by done.
    cbn [EmailService.strip_tags default]. rewrite append_nil_r.
    rewrite collapse_spaces_plain by done. by apply trim_plain.
Qed.

Lemma stripHtmlTags_removes_tags_witness :
  EmailService.stripHtmlTags "Hello <b class=x>Ada" = EmailService.stripHtmlTags "Hello Ada" ∧
  EmailService.strip_tags None "1 < 2" = "1 < 2" ∧
  EmailService.stripHtmlTags "Shipped" = "Shipped".
Proof.
  destruct (stripHtmlTags_removes_tags "Hello " "b class=x" "Ada") as (H1 & _ & _).
  destruct (stripHtmlTags_removes_tags "1 " " 2" "") as (_ & H2 & _).
  destruct (stripHtmlTags_removes_tags "Shipped" "" "") as (_ & _ & H3).
  split; [|split].
  - apply H1; reflexivity.
  - apply H2; reflexivity.
  - apply H3; reflexivity.
Defined.

(** Runs of whitespace are collapsed and the ends trimmed, for the no-break
    space as for the space. *)
Lemma stripHtmlTags_collapses_whitespace :
  EmailService.stripHtmlTags
    ("a" +:+ EmailService.nbsp +:+ EmailService.nbsp +:+ "b" +:+ EmailService.nbsp)
  = "a b" ∧
  EmailService.stripHtmlTags " <p>Hello,   <b>Ada</b> </p>  " = "Hello, Ada" ∧
  EmailService.has_whitespace ("a" +:+ EmailService.nbsp) = true.
Proof. repeat split; reflexivity. Qed.

(** ** WebSocketService: statistics *)

Lemma status_breakdown_snoc (l : list (string * nat)) (s : string) (n : nat) :
  WebSocketService.status_breakdown_of (l ++ [(s, n)])
  = <[s := n]> (WebSocketService.status_breakdown_of l).
Proof. unfold WebSocketService.status_breakdown_of. by rewrite foldl_app. Qed.

Lemma status_breakdown_absent (l : list (string * nat)) (s : string) :
  s ∉ l.*1 -> WebSocketService.status_breakdown_of l !! s = None.
Proof.
  induction l as [|[s' n'] l IH] using rev_ind; [done|].
  rewrite fmap_app, status_breakdown_snoc. simpl. intros H.
  rewrite lookup_insert_ne by set_solver. apply IH. set_solver.
Qed.

(** X4: the status breakdown built from the aggregate's rows maps a status to
    the count of its row when every status has one row, has no entry for a
    status without a row, and when a status has several rows keeps the count
    of the last. *)
Theorem status_breakdown_lookup (statusCounts : list (string * nat))
    (s : string) (n : nat) :
  (NoDup statusCounts.*1 -> (s, n) ∈ statusCounts ->
   WebSocketService.status_breakdown_of statusCounts !! s = Some n) ∧
  (s ∉ statusCounts.*1 ->
   WebSocketService.status_breakdown_of statusCounts !! s = None) ∧
  WebSocketService.status_breakdown_of (statusCounts ++ [(s, n)]) !! s = Some n.
Proof.
  split; [|split].
  - induction statusCounts as [|[s' n'] l IH] using rev_ind;
      [intros _ H; by apply elem_of_nil in H|].
    rewrite fmap_app, status_breakdown_snoc. simpl. intros Hnd Hin.
    apply NoDup_app in Hnd as (Hnd & Hdisj & _).
    apply elem_of_app in Hin as [Hin|Hin].
    + assert (s ≠ s') as Hne.
      { intros <-. apply (Hdisj s); [|set_solver].
        apply list_elem_of_fmap. by exists (s, n). }
      rewrite lookup_insert_ne by done. by apply IH.
    + apply list_elem_of_singleton in Hin as [= <- <-]. apply lookup_insert_eq.
  - apply status_breakdown_absent.
  - rewrite status_breakdown_snoc. apply lookup_insert_eq.
Qed.

Lemma status_breakdown_lookup_witness :
  WebSocketService.status_breakdown_of [("pending", 3); ("shipped", 1)] !! "shipped"
  = Some 1 ∧
  WebSocketService.status_breakdown_of [("pending", 3); ("shipped", 1)] !! "delivered"
  = None.
Proof.
  destruct (status_breakdown_lookup [("pending", 3); ("shipped", 1)] "shipped" 1)
    as (H1 & _ & _).
  destruct (status_breakdown_lookup [("pending", 3); ("shipped", 1)] "delivered" 0)
    as (_ & H2 & _).
  split.
  - apply H1; [|set_solver]. simpl. repeat constructor; set_solver.
  - apply H2. simpl. set_solver.
Defined.

(** X5: the statistics broadcast and the statistics sent to one socket make
    one query each and never throw.  When the record store answers, each emits
    exactly one ["order-stats"] message with the total and the breakdown, the
    broadcast to every connection and the other to the requesting socket only;
    when the record store fails, nothing is emitted. *)
Theorem stats_are_best_effort (E : environment) (socket : string) :
  let sent d :=
    match db E with
    | inl _ => [ObsStatsQuery]
    | inr st =>
        [ObsStatsQuery;
         ObsEmit {| dest := d; event := "order-stats";
                    body := StatsMessage st.1
                              (WebSocketService.status_breakdown_of st.2)
                              (clock E) |}]
    end in
  run E WebSocketService.broadcastStats = (sent ToAll, Normal tt) ∧
  run E (WebSocketService.on_request_stats socket)
  = (sent (ToSocket socket), Normal tt).
Proof.
  unfold WebSocketService.on_request_stats, WebSocketService.sendStatsToClient,
    WebSocketService.broadcastStats. simpl.
  destruct (db E) as [e|st]; split; reflexivity.
Qed.

(** ** WebSocketService: connections *)

(** X6: when a socket that is not registered connects, the number of
    registered connections grows by one and the count announced to every
    connection is that new number; when it then disconnects, the registry is
    as it was and the count announced is the old number.  A connection under
    an id that is registered replaces the entry and leaves the number as it
    is, and the disconnection of an unregistered socket changes nothing. *)
Theorem connection_count_tracks_registry (socket : string) (now later : time)
    (r : WebSocketService.registry) :
  let size_of r := size (WebSocketService.connectedClients r) in
  let r1 := (WebSocketService.on_connection socket now r).1.1 in
  (WebSocketService.connectedClients r !! socket = None ->
   size_of r1 = S (size_of r) ∧
   (WebSocketService.on_connection socket now r).1.2 =
     [{| WebSocketService.recipient := ToSocket socket;
         WebSocketService.topic := "connection-ack";
         WebSocketService.content :=
           WebSocketService.ConnectionAck socket now
             "Connected successfully to real-time order updates" |};
      {| WebSocketService.recipient := ToAll;
         WebSocketService.topic := "client-count-update";
         WebSocketService.content :=
           WebSocketService.ClientCount (S (size_of r)) now |}] ∧
   WebSocketService.connectedClients
     (WebSocketService.on_disconnect socket later r1).1
   = WebSocketService.connectedClients r ∧
   (WebSocketService.on_disconnect socket later r1).2 =
     [{| WebSocketService.recipient := ToAll;
         WebSocketService.topic := "client-count-update";
         WebSocketService.content :=
           WebSocketService.ClientCount (size_of r) later |}]) ∧
  (is_Some (WebSocketService.connectedClients r !! socket) ->
   size_of r1 = size_of r) ∧
  (WebSocketService.connectedClients r !! socket = None ->
   WebSocketService.connectedClients
     (WebSocketService.on_disconnect socket later r).1
   = WebSocketService.connectedClients r).
Proof.
  intros size_of r1. subst size_of r1. simpl. split; [|split].
  - intros Hnew.
    rewrite map_size_insert_None by done.
    unfold WebSocketService.broadcastClientCount. simpl.
    rewrite map_size_insert_None by done.
    rewrite delete_insert_eq, delete_id by done.
    repeat split; reflexivity.
  - intros Hold. by rewrite map_size_insert_Some.
  - intros Hnew. by apply delete_id.
Qed.

Lemma connection_count_tracks_registry_witness :
  let r := {| WebSocketService.connectedClients := ∅;
              WebSocketService.sids := ∅ |} in
  size (WebSocketService.connectedClients
          (WebSocketService.on_connection "s1" 10%N r).1.1) = 1.
Proof.
  intros r.
  destruct (connection_count_tracks_registry "s1" 10%N 20%N r) as ((H & _) & _).
  - reflexivity.
  - rewrite H. reflexivity.
Defined.

(** X7: a ping sets the last activity of the pinging client to the time of
    the ping and changes nothing else: the same ids stay registered, the
    client keeps its id and its time of connection, the other clients and all
    room memberships are untouched; the ping of a socket that is not
    registered changes nothing.  The client is answered exactly when it passed
    a callback. *)
Theorem ping_touches_last_activity (socket : string) (now : time)
    (callback : bool) (r : WebSocketService.registry) :
  let r' := (WebSocketService.on_ping socket now callback r).1 in
  dom (WebSocketService.connectedClients r') = dom (WebSocketService.connectedClients r) ∧
  WebSocketService.sids r' = WebSocketService.sids r ∧
  (∀ c, WebSocketService.connectedClients r !! socket = Some c ->
        WebSocketService.connectedClients r' !! socket =
          Some {| WebSocketService.id := WebSocketService.id c;
                  WebSocketService.connectedAt := WebSocketService.connectedAt c;
                  WebSocketService.lastActivity := now |}) ∧
  (∀ other, other ≠ socket ->
        WebSocketService.connectedClients r' !! other
        = WebSocketService.connectedClients r !! other) ∧
  (WebSocketService.connectedClients r !! socket = None -> r' = r) ∧
  (WebSocketService.on_ping socket now callback r).2 =
    (if callback then Some (WebSocketService.Pong now socket) else None).
Proof.
  intros r'. subst r'. unfold WebSocketService.on_ping. simpl.
  destruct (WebSocketService.connectedClients r !! socket) as [c|] eqn:Hc; simpl.
  - split; [|split; [done|split; [|split; [|split; [done|done]]]]].
    + rewrite dom_insert_L. apply elem_of_dom_2 in Hc. set_solver.
    + intros c' [= <-]. apply lookup_insert_eq.
    + intros other Hne. by apply lookup_insert_ne.
  - repeat split; try done.
Qed.

Lemma ping_touches_last_activity_witness :
  let c := {| WebSocketService.id := "s1"; WebSocketService.connectedAt := 10%N;
              WebSocketService.lastActivity := 10%N |} in
  let r := {| WebSocketService.connectedClients := {[ "s1" := c ]};
              WebSocketService.sids := {[ "s1" := {[ "s1" ]} ]} |} in
  WebSocketService.connectedClients (WebSocketService.on_ping "s1" 99%N true r).1
    !! "s1"
  = Some {| WebSocketService.id := "s1"; WebSocketService.connectedAt := 10%N;
            WebSocketService.lastActivity := 99%N |}.
Proof.
  intros c r.
  destruct (ping_touches_last_activity "s1" 99%N true r) as (_ & _ & H & _).
  exact (H c eq_refl).
Defined.

(** *** Connection statistics *)

(** The names of the four buckets. *)
Lemma bucket_of_cases (m : Z) :
  WebSocketService.bucket_of m = "< 5min" ∨
  WebSocketService.bucket_of m = "5-30min" ∨
  WebSocketService.bucket_of m = "30-60min" ∨
  WebSocketService.bucket_of m = "> 1hr".
Proof.
  unfold WebSocketService.bucket_of.
  destruct (m <? 5)%Z; [by left|]. destruct (m <? 30)%Z; [by right; left|].
  destruct (m <? 60)%Z; [by right; right; left | by right; right; right].
Qed.

Lemma bucket_total_count_in (m : Z) (acc : gmap string nat) :
  WebSocketService.bucket_total
    (WebSocketService.count_in (WebSocketService.bucket_of m) acc)
  = S (WebSocketService.bucket_total acc).
Proof.
  unfold WebSocketService.count_in, WebSocketService.bucket_total.
  destruct (bucket_of_cases m) as [-> | [-> | [-> | ->]]];
    rewrite lookup_insert_eq, !lookup_insert_ne by discriminate; simpl; lia.
Qed.

Lemma bucket_total_foldl (now : time) (l : list WebSocketService.clientInfo)
    (acc : gmap string nat) :
  WebSocketService.bucket_total
    (foldl (fun acc client =>
              WebSocketService.count_in
                (WebSocketService.bucket_of
                   (WebSocketService.minutes_connected now client)) acc) acc l)
  = WebSocketService.bucket_total acc + length l.
Proof.
  revert acc. induction l as [|c l IH]; intros acc; simpl; [lia|].
  rewrite IH, bucket_total_count_in. lia.
Qed.

Lemma bucket_names_foldl (now : time) (l : list WebSocketService.clientInfo)
    (acc : gmap string nat) :
  let names : gset string := {[ "< 5min"; "5-30min"; "30-60min"; "> 1hr" ]} in
  dom acc ⊆ names ->
  dom (foldl (fun acc client =>
                WebSocketService.count_in
                  (WebSocketService.bucket_of
                     (WebSocketService.minutes_connected now client)) acc) acc l)
  ⊆ names.
Proof.
  intros names. revert acc. induction l as [|c l IH]; intros acc Hacc; [done|].
  simpl. apply IH. unfold WebSocketService.count_in. rewrite dom_insert.
  destruct (bucket_of_cases (WebSocketService.minutes_connected now c))
    as [-> | [-> | [-> | ->]]]; set_solver.
Qed.

Lemma minutes_connected_bounds (now : time) (c : WebSocketService.clientInfo)
    (k : Z) :
  (WebSocketService.minutes_connected now c <? k)%Z
  = (Z.of_N now - Z.of_N (WebSocketService.connectedAt c) <? k * 60000)%Z.
Proof.
  unfold WebSocketService.minutes_connected.
  set (d := (Z.of_N now - Z.of_N (WebSocketService.connectedAt c))%Z).
  change (1000 * 60)%Z with 60000%Z.
  pose proof (Z.div_mod d 60000 ltac:(lia)) as Hd.
  pose proof (Z.mod_pos_bound d 60000 ltac:(lia)) as Hm.
  destruct (Z.ltb_spec (d / 60000) k), (Z.ltb_spec d (k * 60000)); try done; lia.
Qed.

(** X8: the connection statistics count every registered connection once:
    the total is the number of registered connections, the four duration
    buckets, which are the only entries, add up to the total, and the active
    connections are at most the total.  A connection falls into ["< 5min"]
    exactly when it has lasted less than 300000 ms, into ["> 1hr"] exactly
    when it has lasted at least 3600000 ms, and it counts as active exactly
    when its last activity is less than 300000 ms old. *)
Theorem connection_stats_partition (now : time) (r : WebSocketService.registry)
    (c : WebSocketService.clientInfo) :
  let st := WebSocketService.getConnectionStats now r in
  let lasted := (Z.of_N now - Z.of_N (WebSocketService.connectedAt c))%Z in
  let bucket :=
    WebSocketService.bucket_of (WebSocketService.minutes_connected now c) in
  WebSocketService.total_connections st = size (WebSocketService.connectedClients r) ∧
  WebSocketService.bucket_total (WebSocketService.connections_by_time st)
  = WebSocketService.total_connections st ∧
  dom (WebSocketService.connections_by_time st)
  ⊆ {[ "< 5min"; "5-30min"; "30-60min"; "> 1hr" ]} ∧
  WebSocketService.active_connections st ≤ WebSocketService.total_connections st ∧
  (bucket = "< 5min" ↔ (lasted < 300000)%Z) ∧
  (bucket = "5-30min" ↔ (300000 ≤ lasted < 1800000)%Z) ∧
  (bucket = "30-60min" ↔ (1800000 ≤ lasted < 3600000)%Z) ∧
  (bucket = "> 1hr" ↔ (3600000 ≤ lasted)%Z) ∧
  (WebSocketService.is_active now c = true ↔
   (Z.of_N now - Z.of_N (WebSocketService.lastActivity c) < 300000)%Z).
Proof.
  intros st lasted bucket. subst st bucket.
  unfold WebSocketService.getConnectionStats. simpl.
  split; [by rewrite length_fmap, length_map_to_list|].
  split; [by rewrite bucket_total_foldl|].
  split; [by apply bucket_names_foldl|].
  split; [apply filter_length_le|].
  unfold WebSocketService.bucket_of. rewrite !minutes_connected_bounds.
  fold lasted. unfold WebSocketService.is_active.
  destruct (Z.ltb_spec lasted (5 * 60000)), (Z.ltb_spec lasted (30 * 60000)),
    (Z.ltb_spec lasted (60 * 60000));
    (repeat split; try discriminate; try lia; try done);
    try (apply Z.ltb_lt); try (intros; by apply Z.ltb_lt).
Qed.

Lemma filter_length_Permutation {A : Type} (f : A -> bool) (l l' : list A) :
  l ≡ₚ l' -> length (List.filter f l) = length (List.filter f l').
Proof.
  induction 1 as [|x l l' _ IH|x y l|l l' l'' _ IH1 _ IH2]; simpl.
  - reflexivity.
  - destruct (f x); simpl; by rewrite IH.
  - by destruct (f x), (f y).
  - by rewrite IH1.
Qed.

(** X9: a registered client that pings is counted as an active connection in
    every statistics snapshot taken less than 300000 ms after the ping: its
    entry then has the time of the ping as last activity and passes the
    activity test, and the number of active connections is one more than the
    number of active connections among the other clients. *)
Theorem ping_keeps_client_active (socket : string) (now later : time)
    (callback : bool) (r : WebSocketService.registry)
    (c : WebSocketService.clientInfo) :
  WebSocketService.connectedClients r !! socket = Some c ->
  (later < now + 300000)%N ->
  let r' := (WebSocketService.on_ping socket now callback r).1 in
  let others :=
    {| WebSocketService.connectedClients :=
         delete socket (WebSocketService.connectedClients r);
       WebSocketService.sids := WebSocketService.sids r |} in
  (∃ c', WebSocketService.connectedClients r' !! socket = Some c' ∧
         WebSocketService.lastActivity c' = now ∧
         WebSocketService.is_active later c' = true) ∧
  WebSocketService.active_connections (WebSocketService.getConnectionStats later r')
  = S (WebSocketService.active_connections
         (WebSocketService.getConnectionStats later others)).
Proof.
  intros Hc Hlater r' others. subst r' others.
  unfold WebSocketService.on_ping. rewrite Hc. simpl.
  set (c' := {| WebSocketService.id := WebSocketService.id c;
                WebSocketService.connectedAt := WebSocketService.connectedAt c;
                WebSocketService.lastActivity := now |}).
  assert (WebSocketService.is_active later c' = true) as Hactive.
  { unfold WebSocketService.is_active. simpl. apply Z.ltb_lt. lia. }
  split.
  - exists c'. by rewrite lookup_insert_eq.
  - rewrite <- (insert_delete_eq (WebSocketService.connectedClients r) socket c').
    rewrite (filter_length_Permutation _ _
               (c' :: (map_to_list
                         (delete socket (WebSocketService.connectedClients r))).*2)).
    + simpl. by rewrite Hactive.
    + rewrite map_to_list_insert by apply lookup_delete_eq. reflexivity.
Qed.

Lemma ping_keeps_client_active_witness :
  let c := {| WebSocketService.id := "s1"; WebSocketService.connectedAt := 0%N;
              WebSocketService.lastActivity := 0%N |} in
  let idle := {| WebSocketService.id := "s2"; WebSocketService.connectedAt := 0%N;
                 WebSocketService.lastActivity := 0%N |} in
  let r := {| WebSocketService.connectedClients := {[ "s1" := c; "s2" := idle ]};
              WebSocketService.sids := {[ "s1" := {[ "s1" ]}; "s2" := {[ "s2" ]} ]} |} in
  WebSocketService.active_connections (WebSocketService.getConnectionStats 900000%N r)
  = 0 ∧
  WebSocketService.active_connections
    (WebSocketService.getConnectionStats 900000%N
       (WebSocketService.on_ping "s1" 700000%N false r).1) = 1.
Proof.
  intros c idle r. split; [reflexivity|].
  destruct (ping_keeps_client_active "s1" 700000%N 900000%N false r c)
    as [_ H]; [reflexivity | lia |].
  rewrite H. reflexivity.
Defined.

(** ** WebSocketService: who receives what *)

Lemma order_room_inj (a b : string) :
  WebSocketService.order_room a = WebSocketService.order_room b -> a = b.
Proof. unfold WebSocketService.order_room. intros H. by simplify_eq/=. Qed.

Lemma elem_of_receivers_room (r : WebSocketService.registry) (room s : string) :
  s ∈ WebSocketService.receivers r (ToRoom room) ↔
  room ∈ default ∅ (WebSocketService.sids r !! s).
Proof.
  simpl. rewrite elem_of_dom. unfold is_Some.
  setoid_rewrite map_lookup_filter_Some. simpl.
  destruct (WebSocketService.sids r !! s) as [rooms|]; simpl.
  - split; [by intros (? & [= <-] & ?) | by intros; exists rooms].
  - split; [by intros (? & [=] & ?) | set_solver].
Qed.

(** X10: of each of the three record broadcasts, a connected socket receives
    the copy for every connection, and receives the record-scoped copy
    exactly when it is subscribed to the id of the record. *)
Theorem record_copy_reaches_subscribers (E : environment)
    (r : WebSocketService.registry) (s : string) (o : order)
    (previous : option order) (p : prog unit) :
  s ∈ dom (WebSocketService.sids r) ->
  p = WebSocketService.broadcastOrderCreated o ∨
  p = WebSocketService.broadcastOrderUpdated o previous ∨
  p = WebSocketService.broadcastOrderDeleted o ->
  length (broadcasts (trace E p)) = 1 ∧
  length (room_copies (trace E p)) = 1 ∧
  (∀ m, m ∈ broadcasts (trace E p) -> s ∈ WebSocketService.receivers r (dest m)) ∧
  (∀ m, m ∈ room_copies (trace E p) ->
        (s ∈ WebSocketService.receivers r (dest m) ↔
         WebSocketService.subscribed s (_id o) r)).
Proof.
  intros Hs [-> | [-> | ->]];
    (split; [reflexivity|]); (split; [reflexivity|]); split;
    intros m Hm; apply list_elem_of_singleton in Hm as ->; simpl dest;
    try done; apply elem_of_receivers_room.
Qed.

Lemma record_copy_reaches_subscribers_witness :
  let r := {| WebSocketService.connectedClients := ∅;
              WebSocketService.sids :=
                {[ "s1" := {[ "s1"; "order-42" ]}; "s2" := {[ "s2" ]} ]} |} in
  let E := {| clock := 7%N; smtp := fun _ => inl TypeError; db := inl TypeError |} in
  let o := sample_order "42" in
  Forall (fun m => "s1" ∈ WebSocketService.receivers r (dest m) ∧
                   "s2" ∉ WebSocketService.receivers r (dest m))
    (room_copies (trace E (WebSocketService.broadcastOrderCreated o))).
Proof.
  intros r E o. apply Forall_forall. intros m Hm.
  destruct (record_copy_reaches_subscribers E r "s1" o None
              (WebSocketService.broadcastOrderCreated o))
    as (_ & _ & _ & H1); [set_solver | by left |].
  destruct (record_copy_reaches_subscribers E r "s2" o None
              (WebSocketService.broadcastOrderCreated o))
    as (_ & _ & _ & H2); [set_solver | by left |].
  split.
  - apply (H1 m Hm). unfold WebSocketService.subscribed. vm_compute. set_solver.
  - rewrite (H2 m Hm). unfold WebSocketService.subscribed. vm_compute. set_solver.
Defined.

Lemma subscribed_join (socket room : string) (r : WebSocketService.registry)
    (s' room' : string) :
  room' ∈ default ∅ (WebSocketService.sids (WebSocketService.join socket room r) !! s')
  ↔ (s' = socket ∧ room' = room) ∨ room' ∈ default ∅ (WebSocketService.sids r !! s').
Proof.
  unfold WebSocketService.join. simpl.
  destruct (decide (s' = socket)) as [->|Hne].
  - rewrite lookup_insert_eq. simpl. set_solver.
  - rewrite lookup_insert_ne by done. naive_solver.
Qed.

Lemma subscribed_leave (socket room : string) (r : WebSocketService.registry)
    (s' room' : string) :
  room' ∈ default ∅ (WebSocketService.sids (WebSocketService.leave socket room r) !! s')
  ↔ ¬ (s' = socket ∧ room' = room) ∧
    room' ∈ default ∅ (WebSocketService.sids r !! s').
Proof.
  unfold WebSocketService.leave.
  destruct (WebSocketService.sids r !! socket) as [rooms|] eqn:Hs; simpl.
  - destruct (decide (s' = socket)) as [->|Hne].
    + rewrite lookup_insert_eq, Hs. simpl. set_solver.
    + rewrite lookup_insert_ne by done. naive_solver.
  - split; [|naive_solver]. intros H. split; [|done].
    intros [-> ->]. rewrite Hs in H. set_solver.
Qed.

(** X11: after [subscribe-order] with a non-empty id the socket is subscribed
    to that id, and after a following [unsubscribe-order] it is not; neither
    changes the subscription of any other socket or of the same socket to any
    other id, nor the registered connections.  A [subscribe-order] or
    [unsubscribe-order] with a missing or empty id is ignored without an
    acknowledgement. *)
Theorem subscription_takes_effect (socket oid : string)
    (r : WebSocketService.registry) :
  oid ≠ "" ->
  let r1 := (WebSocketService.on_subscribe_order socket (Some oid) r).1 in
  let r2 := (WebSocketService.on_unsubscribe_order socket (Some oid) r1).1 in
  WebSocketService.subscribed socket oid r1 ∧
  ¬ WebSocketService.subscribed socket oid r2 ∧
  (∀ s' o', s' ≠ socket ∨ o' ≠ oid ->
     (WebSocketService.subscribed s' o' r1 ↔ WebSocketService.subscribed s' o' r) ∧
     (WebSocketService.subscribed s' o' r2 ↔ WebSocketService.subscribed s' o' r)) ∧
  WebSocketService.connectedClients r2 = WebSocketService.connectedClients r ∧
  (∀ missing, missing = None ∨ missing = Some "" ->
     WebSocketService.on_subscribe_order socket missing r = (r, []) ∧
     WebSocketService.on_unsubscribe_order socket missing r = (r, [])).
Proof.
  intros Hoid r1 r2. subst r1 r2.
  unfold WebSocketService.on_subscribe_order, WebSocketService.on_unsubscribe_order,
    WebSocketService.subscribed.
  assert (truthy (Some oid) = true) as -> by (by apply bool_decide_eq_true_2).
  cbn [fst]. split; [|split; [|split; [|split]]].
  - apply subscribed_join. by left.
  - rewrite subscribed_leave. naive_solver.
  - intros s' o' Hne.
    assert (¬ (s' = socket ∧ WebSocketService.order_room o'
                             = WebSocketService.order_room oid)) as Hn.
    { intros [-> Hr]. apply order_room_inj in Hr. naive_solver. }
    rewrite subscribed_leave, !subscribed_join. naive_solver.
  - unfold WebSocketService.leave, WebSocketService.join. simpl.
    rewrite lookup_insert_eq. reflexivity.
  - intros missing [-> | ->]; split; reflexivity.
Qed.

Lemma subscription_takes_effect_witness :
  let r := {| WebSocketService.connectedClients := ∅;
              WebSocketService.sids := {[ "s1" := {[ "s1" ]} ]} |} in
  WebSocketService.subscribed "s1" "42"
    (WebSocketService.on_subscribe_order "s1" (Some "42") r).1.
Proof.
  intros r.
  destruct (subscription_takes_effect "s1" "42" r) as (H & _); [discriminate|].
  exact H.
Defined.

(** ** ChangeStreamService: the other changes *)

Lemma run_handleInsert emailService env E (d : order) :
  run E (ChangeStreamService.handleInsert emailService env (Some d)) =
  (trace E (WebSocketService.broadcastOrderCreated d) ++
   (if truthy (email d)
    then trace E (EmailService.sendOrderCreatedEmail emailService env d)
    else []),
   Normal tt).
Proof.
  unfold ChangeStreamService.handleInsert. rewrite run_bind.
  change (run E (WebSocketService.broadcastOrderCreated d))
    with (trace E (WebSocketService.broadcastOrderCreated d), Normal tt).
  cbv iota. destruct (truthy (email d)); [|reflexivity].
  by rewrite run_guarded by apply sendOrderCreatedEmail_never_throws.
Qed.

(** X12: an insert that carries its document is broadcast to every connection
    as ["order-created"] and to the room of the record as ["order-update"];
    the order-created notification is entered once when the document has an
    e-mail address and not at all otherwise, and a message is handed to the
    mail transport only when moreover the mail service is configured; what the
    handler does is followed by the statistics broadcast. *)
Theorem insert_broadcasts_then_notifies (emailService : EmailService.service)
    (env : gmap string string) (E : environment) (c : change) (d : order) :
  operationType c = "insert" ->
  fullDocument c = Some d ->
  let t := trace E (ChangeStreamService.on_change emailService env c) in
  let h := trace E (ChangeStreamService.handleInsert emailService env (Some d)) in
  t = h ++ trace E WebSocketService.broadcastStats ∧
  emissions h =
    [{| dest := ToAll; event := "order-created";
        body := OrderEnvelope "order-created" d (clock E) |};
     {| dest := ToRoom (WebSocketService.order_room (_id d));
        event := "order-update";
        body := OrderEnvelope "order-created" d (clock E) |}] ∧
  notifications t = (if truthy (email d) then [OrderCreatedEmail d] else []) ∧
  (subject <$> mails t) =
    (if truthy (email d) && EmailService.isConfigured emailService
     then ["Order Confirmation - " +:+ product_name d] else []).
Proof.
  intros Hop Hdoc t h. subst t h.
  assert (trace E (ChangeStreamService.handleInsert emailService env (Some d))
          = (run E (ChangeStreamService.handleInsert emailService env (Some d))).1)
    as Hh by reflexivity.
  rewrite run_handleInsert in Hh. cbn [fst] in Hh.
  assert (trace E (ChangeStreamService.on_change emailService env c)
          = trace E (ChangeStreamService.handleInsert emailService env (Some d))
            ++ trace E WebSocketService.broadcastStats) as ->.
  { unfold ChangeStreamService.on_change, ChangeStreamService.handleChange.
    rewrite Hop, Hdoc. decide_operation.
    unfold trace at 1. rewrite run_then_stats, run_await, run_handleInsert.
    cbn [fst]. by rewrite Hh. }
  destruct (stats_trace_is_quiet E) as [Hn Hm].
  split; [reflexivity|]. rewrite Hh.
  rewrite !notifications_app, !mails_app, !emissions_app, Hn, Hm, !app_nil_r.
  unfold EmailService.sendOrderCreatedEmail.
  rewrite trace_notification, trace_sendEmail.
  destruct (truthy (email d)), (EmailService.isConfigured emailService);
    repeat split; reflexivity.
Qed.

Lemma insert_broadcasts_then_notifies_witness :
  let d := {| _id := "42"; customer_name := "Ada"; product_name := "Lamp";
              status := "pending"; email := Some "ada@example.com" |} in
  let c := {| operationType := "insert"; fullDocument := Some d;
              fullDocumentBeforeChange := None; documentKey := "42" |} in
  let E := {| clock := 7%N; smtp := fun _ => inl TypeError; db := inl TypeError |} in
  notifications (trace E (ChangeStreamService.on_change EmailService.fresh ∅ c))
  = [OrderCreatedEmail d].
Proof.
  intros d c E.
  destruct (insert_broadcasts_then_notifies EmailService.fresh ∅ E c d
              eq_refl eq_refl) as (_ & _ & H & _).
  exact H.
Defined.

Lemma run_handleDelete_snapshot emailService env E key (p : order) :
  run E (ChangeStreamService.handleDelete emailService env key (Some p)) =
  (trace E (WebSocketService.broadcastOrderDeleted p) ++
   (if truthy (email p)
    then trace E (EmailService.sendOrderCancelledEmail emailService env p)
    else []),
   Normal tt).
Proof.
  unfold ChangeStreamService.handleDelete. rewrite run_bind.
  change (run E (WebSocketService.broadcastOrderDeleted p))
    with (trace E (WebSocketService.broadcastOrderDeleted p), Normal tt).
  cbv iota. destruct (truthy (email p)); [|reflexivity].
  by rewrite run_guarded by apply sendOrderCancelledEmail_never_throws.
Qed.

(** X13: a delete that carries the prior snapshot broadcasts that snapshot,
    not a stub: ["order-deleted"] to every connection and ["order-update"] to
    the room named by the id in the snapshot.  The cancellation notification
    is entered once when the snapshot has an e-mail address and not at all
    otherwise, and the statistics broadcast follows. *)
Theorem delete_with_snapshot (emailService : EmailService.service)
    (env : gmap string string) (E : environment) (c : change) (p : order) :
  operationType c = "delete" ->
  fullDocumentBeforeChange c = Some p ->
  let t := trace E (ChangeStreamService.on_change emailService env c) in
  let h := trace E (ChangeStreamService.handleDelete emailService env
                      (documentKey c) (Some p)) in
  t = h ++ trace E WebSocketService.broadcastStats ∧
  emissions h =
    [{| dest := ToAll; event := "order-deleted";
        body := OrderEnvelope "order-deleted" p (clock E) |};
     {| dest := ToRoom (WebSocketService.order_room (_id p));
        event := "order-update";
        body := OrderEnvelope "order-deleted" p (clock E) |}] ∧
  notifications t = (if truthy (email p) then [OrderCancelledEmail p] else []) ∧
  (subject <$> mails t) =
    (if truthy (email p) && EmailService.isConfigured emailService
     then ["Order Cancelled - " +:+ product_name p] else []).
Proof.
  intros Hop Hdoc t h. subst t h.
  assert (trace E (ChangeStreamService.handleDelete emailService env
                     (documentKey c) (Some p))
          = (run E (ChangeStreamService.handleDelete emailService env
                      (documentKey c) (Some p))).1) as Hh by reflexivity.
  rewrite run_handleDelete_snapshot in Hh. cbn [fst] in Hh.
  assert (trace E (ChangeStreamService.on_change emailService env c)
          = trace E (ChangeStreamService.handleDelete emailService env
                       (documentKey c) (Some p))
            ++ trace E WebSocketService.broadcastStats) as ->.
  { unfold ChangeStreamService.on_change, ChangeStreamService.handleChange.
    rewrite Hop, Hdoc. decide_operation.
    unfold trace at 1. rewrite run_then_stats, run_await, run_handleDelete_snapshot.
    cbn [fst]. by rewrite Hh. }
  destruct (stats_trace_is_quiet E) as [Hn Hm].
  split; [reflexivity|]. rewrite Hh.
  rewrite !notifications_app, !mails_app, !emissions_app, Hn, Hm, !app_nil_r.
  unfold EmailService.sendOrderCancelledEmail.
  rewrite trace_notification, trace_sendEmail.
  destruct (truthy (email p)), (EmailService.isConfigured emailService);
    repeat split; reflexivity.
Qed.

Lemma delete_with_snapshot_witness :
  let p := {| _id := "42"; customer_name := "Ada"; product_name := "Lamp";
              status := "shipped"; email := Some "ada@example.com" |} in
  let c := {| operationType := "delete"; fullDocument := None;
              fullDocumentBeforeChange := Some p; documentKey := "42" |} in
  let E := {| clock := 7%N; smtp := fun _ => inl TypeError; db := inl TypeError |} in
  notifications (trace E (ChangeStreamService.on_change EmailService.fresh ∅ c))
  = [OrderCancelledEmail p].
Proof.
  intros p c E.
  destruct (delete_with_snapshot EmailService.fresh ∅ E c p eq_refl eq_refl)
    as (_ & _ & H & _).
  exact H.
Defined.

(** X14: an event that has no [documentKey], as the events of the operation
    types other than insert, update, replace and delete.  [handleChange]
    throws on reading [documentKey._id] before it enters its [try]; the
    listener catches what it threw and completes.  Nothing is sent and the
    statistics are not queried, whatever the operation type and the documents
    of the event.  An event that has its key is handled as the change it
    carries; and on every event the listener completes without throwing. *)
Theorem event_without_key_is_dropped (emailService : EmailService.service)
    (env : gmap string string) (E : environment) (e : Feed.event) :
  (Feed.documentKey e = None ->
   run E (ChangeStreamService.handleEvent emailService env e) = ([], Throw TypeError) ∧
   run E (ChangeStreamService.on_event emailService env e) = ([], Normal tt)) ∧
  (∀ key, Feed.documentKey e = Some key ->
   run E (ChangeStreamService.on_event emailService env e) =
   run E (ChangeStreamService.on_change emailService env (Feed.keyed e key))) ∧
  outcome E (ChangeStreamService.on_event emailService env e) = Normal tt.
Proof.
  split; [|split].
  - intros Hkey.
    unfold ChangeStreamService.on_event, ChangeStreamService.handleEvent.
    rewrite Hkey. split; [reflexivity|].
    by rewrite run_try_catch, run_await.
  - intros key Hkey. by rewrite (on_event_keyed _ _ _ _ Hkey).
  - unfold outcome, ChangeStreamService.on_event. rewrite run_try_catch.
    destruct (run E _) as [t [[]|err]]; reflexivity.
Qed.

Lemma event_without_key_is_dropped_witness :
  let E := {| clock := 7%N; smtp := fun _ => inl TypeError;
              db := inr (3, [("pending", 3)]) |} in
  run E (ChangeStreamService.on_event EmailService.fresh ∅ sample_drop)
  = ([], Normal tt).
Proof.
  intros E.
  destruct (event_without_key_is_dropped EmailService.fresh ∅ E sample_drop)
    as (H & _ & _).
  apply H. reflexivity.
Defined.

(** X15: a change that lacks its document.  An insert or a replace without
    [fullDocument] fails on reading the document; the failure is caught, and
    nothing at all is sent, not even the statistics.  An update without
    [fullDocument] returns early, and the statistics broadcast is all that
    happens. *)
Theorem change_without_document (emailService : EmailService.service)
    (env : gmap string string) (E : environment) (c : change) :
  fullDocument c = None ->
  (operationType c = "insert" ∨ operationType c = "replace" ->
   run E (ChangeStreamService.on_change emailService env c) = ([], Normal tt)) ∧
  (operationType c = "update" ->
   run E (ChangeStreamService.on_change emailService env c)
   = (trace E WebSocketService.broadcastStats, Normal tt)).
Proof.
  intros Hdoc.
  unfold ChangeStreamService.on_change, ChangeStreamService.handleChange.
  rewrite Hdoc. split.
  - intros [Hop | Hop]; rewrite Hop; decide_operation;
      by rewrite run_then_stats, run_await.
  - intros Hop. rewrite Hop. decide_operation. by rewrite run_then_stats, run_await.
Qed.

Lemma change_without_document_witness :
  let c := {| operationType := "insert"; fullDocument := None;
              fullDocumentBeforeChange := None; documentKey := "42" |} in
  let E := {| clock := 7%N; smtp := fun _ => inl TypeError; db := inr (1, []) |} in
  run E (ChangeStreamService.on_change EmailService.fresh ∅ c) = ([], Normal tt).
Proof.
  intros c E.
  destruct (change_without_document EmailService.fresh ∅ E c eq_refl) as [H _].
  apply H. by left.
Defined.

(** A replace that carries its document does what the update with the same
    documents does: the same broadcasts, the same notification rule, a
    replace that leaves the status unchanged notifies nobody. *)
Theorem replace_is_handled_as_update (emailService : EmailService.service)
    (env : gmap string string) (E : environment) (c : change) (d : order) :
  operationType c = "replace" ->
  fullDocument c = Some d ->
  run E (ChangeStreamService.on_change emailService env c) =
  run E (ChangeStreamService.on_change emailService env
           {| operationType := "update"; fullDocument := fullDocument c;
              fullDocumentBeforeChange := fullDocumentBeforeChange c;
              documentKey := documentKey c |}).
Proof.
  intros Hop Hdoc.
  unfold ChangeStreamService.on_change, ChangeStreamService.handleChange.
  cbn [operationType fullDocument fullDocumentBeforeChange documentKey].
  rewrite Hop, Hdoc. decide_operation.
  rewrite !run_then_stats, !run_await.
  unfold ChangeStreamService.handleReplace. by rewrite run_await.
Qed.

Lemma replace_is_handled_as_update_witness :
  let d := sample_order "42" in
  let c := {| operationType := "replace"; fullDocument := Some d;
              fullDocumentBeforeChange := Some d; documentKey := "42" |} in
  let E := {| clock := 7%N; smtp := fun _ => inl TypeError; db := inl TypeError |} in
  notifications (trace E (ChangeStreamService.on_change EmailService.fresh ∅ c)) = [].
Proof.
  intros d c E. unfold trace.
  rewrite (replace_is_handled_as_update EmailService.fresh ∅ E c d eq_refl eq_refl).
  reflexivity.
Defined.

(** ** Lifecycle: what always holds *)

Lemma Forall_list_filter {A : Type} (P : A -> Prop) (f : A -> bool) (l : list A) :
  Forall P l -> Forall P (List.filter f l).
Proof.
  rewrite !Forall_forall. intros H x Hx. apply H.
  apply list_elem_of_In. apply list_elem_of_In in Hx.
  by apply filter_In in Hx as [? _].
Qed.

Lemma NoDup_list_filter {A : Type} (f : A -> bool) (l : list A) :
  NoDup l -> NoDup (List.filter f l).
Proof.
  induction 1 as [|x l Hx Hl IH]; simpl; [constructor|].
  destruct (f x); [|exact IH]. constructor; [|exact IH].
  rewrite list_elem_of_In, filter_In, <- list_elem_of_In. tauto.
Qed.

Lemma policy_release close w :
  maxRetries (this (release close w)) = maxRetries (this w) ∧
  retryDelay (this (release close w)) = retryDelay (this w).
Proof.
  unfold release, close_stream. by destruct (changeStream (this w)), close.
Qed.

Lemma consistent_release close w :
  consistent w ->
  consistent (with_this (set_isRunning false) (release close w)) ∧
  changeStream (this (release close w)) = None.
Proof.
  intros [H1 H2 H3 H4 H5 H6]. unfold release, close_stream.
  destruct (changeStream (this w)) as [s|] eqn:Hs, close as [e|]; simpl;
    (split; [constructor; simpl; try done|done]);
    rewrite ?Hs; try done;
    try (by apply Forall_list_filter); try (by apply NoDup_list_filter).
Qed.

Lemma consistent_handleError close w :
  consistent w ->
  consistent (handleError close w) ∧
  maxRetries (this (handleError close w)) = maxRetries (this w) ∧
  retryDelay (this (handleError close w)) = retryDelay (this w).
Proof.
  intros Hw. unfold handleError.
  destruct (consistent_release close w Hw) as [[H1 H2 H3 H4 H5 H6] Hnone].
  destruct (policy_release close w) as [Hmax Hbase].
  simpl in *.
  destruct (Nat.ltb_spec (retryCount (this (release close w)))
              (maxRetries (this (release close w)))) as [Hlt|Hge].
  - split; [|done]. constructor; simpl; try done.
    apply Forall_app. split; [exact H6|]. apply Forall_singleton.
    exists (retryCount (this (release close w))). split; [exact Hlt|].
    simpl. by rewrite Nat.sub_0_r.
  - split; [|done]. constructor; done.
Qed.

Lemma consistent_subscribe watch close w :
  consistent w ->
  consistent (start watch close w) ∧
  maxRetries (this (start watch close w)) = maxRetries (this w) ∧
  retryDelay (this (start watch close w)) = retryDelay (this w).
Proof.
  intros Hw. unfold start, startChangeStream. destruct watch as [e|].
  - assert (consistent (record (Watch (inl e)) w)) as Hw'
      by (destruct Hw; by constructor).
    apply (consistent_handleError close) in Hw'. exact Hw'.
  - destruct Hw as [H1 H2 H3 H4 H5 H6]. split; [|done].
    constructor; simpl; try done.
    + lia.
    + intros s [= <-]. lia.
    + apply Forall_app. split.
      * eapply Forall_impl; [exact H4|]. simpl. intros; lia.
      * constructor; [lia|constructor].
    + apply NoDup_app. split; [done|]. split; [|apply NoDup_singleton].
      intros s Hs Hs'. apply list_elem_of_singleton in Hs' as ->.
      rewrite Forall_forall in H4. specialize (H4 _ Hs). lia.
Qed.

Lemma consistent_step w (i : input) :
  consistent w ->
  consistent (step w i) ∧
  maxRetries (this (step w i)) = maxRetries (this w) ∧
  retryDelay (this (step w i)) = retryDelay (this w).
Proof.
  intros Hw. destruct i as [watch close|close|close|dt|i watch close]; simpl.
  - by apply consistent_subscribe.
  - unfold stop.
    assert (consistent (with_this (set_isRunning false) w)) as Hw'
      by (destruct Hw; by constructor).
    destruct (consistent_release close _ Hw') as [[H1 H2 H3 H4 H5 H6] Hnone].
    destruct (policy_release close (with_this (set_isRunning false) w)) as [Hm Hb].
    split; [|done]. constructor; try done.
    intros Hrun. rewrite Hnone. simpl in H2.
    revert Hrun. unfold release, close_stream. simpl.
    by destruct (changeStream (this w)), close.
  - by apply consistent_handleError.
  - split; [|done]. destruct Hw. by constructor.
  - unfold fire. destruct (timers w !! i) as [t|] eqn:Ht; [|done].
    destruct (N.leb (due t) (now w)); [|done].
    assert (consistent
              {| this := this w; opened := opened w; next_stream := next_stream w;
                 timers := delete i (timers w); now := now w; log := log w |})
      as Hw'.
    { destruct Hw as [H1 H2 H3 H4 H5 H6]. constructor; simpl; try done.
      by apply Forall_delete. }
    apply (consistent_subscribe watch close) in Hw'. exact Hw'.
Qed.

(** X16: whatever is done to a service that starts from a consistent state
    (calls of [start()] and [stop()], errors of the stream, time passing,
    timers firing, each succeeding or failing), its state stays consistent:
    the retry count never exceeds the maximum, a service that reports running
    holds a stream, no stream is open twice, and every pending retry waits one
    of the delays [retryDelay * 2 ^ k] with [k] below the maximum; the
    maximum and the base delay themselves never change.  The state after
    construction is consistent. *)
Theorem lifecycle_stays_consistent (w : world) (inputs : list input) :
  consistent (initial new_ChangeStreamService) ∧
  (consistent w ->
   consistent (exec w inputs) ∧
   maxRetries (this (exec w inputs)) = maxRetries (this w) ∧
   retryDelay (this (exec w inputs)) = retryDelay (this w)).
Proof.
  split.
  - constructor; simpl; try done; try lia; constructor.
  - revert w. induction inputs as [|i inputs IH]; intros w Hw; [done|].
    unfold exec in *. simpl.
    destruct (consistent_step w i Hw) as (Hw' & Hm & Hb).
    destruct (IH _ Hw') as (H & Hm' & Hb'). by rewrite Hm', Hb'.
Qed.

Lemma lifecycle_stays_consistent_witness :
  let w := exec (initial new_ChangeStreamService)
             [CallStart None None; StreamError None; CallStop None;
              Elapse 5000%N; TimerFires 0 (Some TypeError) None] in
  retryCount (this w) ≤ 5 ∧ maxRetries (this w) = 5.
Proof.
  intros w.
  destruct (lifecycle_stays_consistent (initial new_ChangeStreamService)
              [CallStart None None; StreamError None; CallStop None;
               Elapse 5000%N; TimerFires 0 (Some TypeError) None])
    as (H0 & H).
  destruct (H H0) as ([Hr _ _ _ _ _] & Hm & _).
  fold w in Hr, Hm. rewrite Hm in Hr. split; [exact Hr | exact Hm].
Defined.

(** ** Lifecycle: backoff and shutdown *)

Lemma handleError_schedules close w :
  retryCount (this w) < maxRetries (this w) ->
  let d := (retryDelay (this w) * 2 ^ N.of_nat (retryCount (this w)))%N in
  timers (handleError close w) = timers w ++ [{| due := (now w + d)%N; delay := d |}] ∧
  retryCount (this (handleError close w)) = S (retryCount (this w)) ∧
  ∃ new, log (handleError close w) = log w ++ new ∧ delays new = [d] ∧
         broadcast_events new = [].
Proof.
  intros Hlt d. subst d. unfold handleError, release, close_stream.
  destruct (changeStream (this w)) as [s|], close as [e|]; simpl;
    (destruct (Nat.ltb_spec (retryCount (this w)) (maxRetries (this w)));
     [|lia]); simpl; rewrite Nat.sub_0_r;
    (split; [reflexivity|]); (split; [reflexivity|]);
    eexists; (split; [rewrite <- ?app_assoc; reflexivity|]); split; reflexivity.
Qed.

Lemma handleError_exhausted close w :
  maxRetries (this w) ≤ retryCount (this w) ->
  timers (handleError close w) = timers w ∧
  retryCount (this (handleError close w)) = retryCount (this w) ∧
  isRunning (this (handleError close w)) = false ∧
  ∃ new, log (handleError close w) = log w ++ new ∧ delays new = [] ∧
         broadcast_events new = ["service-error"].
Proof.
  intros Hge. unfold handleError, release, close_stream.
  destruct (changeStream (this w)) as [s|], close as [e|]; simpl;
    (destruct (Nat.ltb_spec (retryCount (this w)) (maxRetries (this w)));
     [lia|]); simpl;
    (split; [reflexivity|]); (split; [reflexivity|]); (split; [reflexivity|]);
    eexists; (split; [rewrite <- ?app_assoc; reflexivity|]); split; reflexivity.
Qed.

(** X17: a subscription that succeeds, by [start()] or by a retry, puts the
    retry count back to 0 and marks the service running, however many retries
    failed before; so the next error of the stream waits the base delay
    again. *)
Theorem success_resets_backoff (close close' : option jsError) (w : world) :
  0 < maxRetries (this w) ->
  let w1 := retry None close w in
  start None close w = w1 ∧
  retryCount (this w1) = 0 ∧
  isRunning (this w1) = true ∧
  changeStream (this w1) = Some (next_stream w) ∧
  ∃ new, log (on_stream_error close' w1) = log w1 ++ new ∧
         delays new = [retryDelay (this w)].
Proof.
  intros Hmax w1.
  assert (retryCount (this w1) < maxRetries (this w1)) as Hlt by (simpl; lia).
  destruct (handleError_schedules close' w1 Hlt) as (_ & _ & new & Hl & Hd & _).
  split; [reflexivity|]. split; [reflexivity|]. split; [reflexivity|].
  split; [reflexivity|]. exists new. split; [exact Hl|].
  rewrite Hd. simpl. by rewrite N.mul_1_r.
Qed.

Lemma success_resets_backoff_witness :
  let w := consecutive_failures TypeError 3 (on_stream_error None watching_world) in
  retryCount (this w) = 4 ∧
  retryCount (this (retry None None (exec w [Elapse 40000%N]))) = 0.
Proof.
  intros w. split; [reflexivity|].
  destruct (success_resets_backoff None None (exec w [Elapse 40000%N]))
    as (_ & H & _); [vm_compute; lia | exact H].
Defined.

(** X18: once the retry count has reached the maximum, every further error
    of the stream broadcasts ["service-error"] again, sets no timer and leaves
    the retry count where it is: the service does not come back by itself.
    After [resetRetryCount()] the next error waits the base delay. *)
Theorem exhausted_service_stays_down (close : option jsError) (w : world) :
  maxRetries (this w) ≤ retryCount (this w) ->
  let w' := on_stream_error close w in
  timers w' = timers w ∧
  retryCount (this w') = retryCount (this w) ∧
  isRunning (this w') = false ∧
  (∃ new, log w' = log w ++ new ∧ delays new = [] ∧
          broadcast_events new = ["service-error"]) ∧
  (0 < maxRetries (this w) ->
   ∃ new, log (on_stream_error close (resetRetryCount w'))
          = log w' ++ new ∧ delays new = [retryDelay (this w)]).
Proof.
  intros Hge w'. subst w'. unfold on_stream_error.
  destruct (handleError_exhausted close w Hge) as (Ht & Hc & Hr & Hnew).
  split; [exact Ht|]. split; [exact Hc|]. split; [exact Hr|]. split; [exact Hnew|].
  intros Hmax.
  assert (maxRetries (this (handleError close w)) = maxRetries (this w) ∧
          retryDelay (this (handleError close w)) = retryDelay (this w))
    as [Hm Hb].
  { unfold handleError, release, close_stream.
    destruct (changeStream (this w)), close; simpl;
      (destruct (Nat.ltb_spec (retryCount (this w)) (maxRetries (this w)));
       [lia|]); done. }
  destruct (handleError_schedules close
              (resetRetryCount (handleError close w))) as (_ & _ & new & Hl & Hd & _).
  { simpl. rewrite Hm. exact Hmax. }
  exists new. split; [exact Hl|]. rewrite Hd. simpl. by rewrite Hb, N.mul_1_r.
Qed.

Lemma exhausted_service_stays_down_witness :
  let w := consecutive_failures TypeError 5 (on_stream_error None watching_world) in
  broadcast_events (log (on_stream_error None w))
  = ["service-error"; "service-error"].
Proof.
  intros w.
  destruct (exhausted_service_stays_down None w) as (_ & _ & _ & (new & Hl & _ & Hb) & _).
  - vm_compute. lia.
  - rewrite Hl, omap_broadcast_events_app, Hb. reflexivity.
Defined.

(** X19: [stop()] may be called again: a second call changes nothing, whether
    or not closing the stream failed in the first. *)
Theorem stop_twice_is_stop (close close' : option jsError) (w : world) :
  stop close' (stop close w) = stop close w.
Proof.
  unfold stop, release, close_stream.
  destruct w as [[cs run rc mx bd] op ns tm nw lg]. simpl.
  destruct cs as [s|], close as [e|]; reflexivity.
Qed.

(** ** The event loop: announcements in feed order *)

Lemma calm_bind {A B : Type} (p : prog A) (f : A -> prog B) :
  EventLoop.calm p -> (∀ a, EventLoop.calm (f a)) -> EventLoop.calm (bind p f).
Proof.
  intros Hp Hf. induction Hp; simpl; try (constructor; auto); auto.
Qed.

Lemma calm_try_catch {A : Type} (p : prog A) (h : jsError -> prog A) :
  EventLoop.calm p -> (∀ e, EventLoop.calm (h e)) -> EventLoop.calm (try_catch p h).
Proof.
  intros Hp Hh. induction Hp; simpl; try (constructor; auto); auto.
Qed.

Lemma calm_await {A : Type} (p : prog A) : EventLoop.calm p -> EventLoop.calm (await p).
Proof.
  intros Hp. unfold await. apply calm_try_catch; [|intros; repeat constructor].
  apply calm_bind; [exact Hp|intros; repeat constructor].
Qed.

Lemma calm_sendEmail this env to subject html text :
  EventLoop.calm (EmailService.sendEmail this env to subject html text).
Proof.
  unfold EmailService.sendEmail.
  destruct (EmailService.isConfigured this); simpl; constructor.
  intros [e|info]; constructor.
Qed.

Lemma calm_guarded (send : prog sendResult) :
  EventLoop.calm send -> EventLoop.calm (ChangeStreamService.guarded send).
Proof.
  intros H. unfold ChangeStreamService.guarded.
  apply calm_try_catch; [|intros; constructor].
  apply calm_bind; [by apply calm_await|intros; constructor].
Qed.

Lemma calm_broadcastStats : EventLoop.calm WebSocketService.broadcastStats.
Proof.
  unfold WebSocketService.broadcastStats. simpl. constructor.
  intros [e|st]; simpl; repeat constructor.
Qed.

Lemma calm_broadcastCustomMessage ev data :
  EventLoop.calm (WebSocketService.broadcastCustomMessage ev data).
Proof. repeat constructor. Qed.

(** What is left of the listener once the change has been broadcast. *)
Lemma calm_rest (q : prog unit) :
  EventLoop.calm q ->
  EventLoop.calm
    (try_catch
       (await (try_catch (q ;;; await WebSocketService.broadcastStats)
                 (fun _ => Ret tt)))
       (fun _ => Ret tt)).
Proof.
  intros Hq. apply calm_try_catch; [|intros; constructor].
  apply calm_await, calm_try_catch; [|intros; constructor].
  apply calm_bind; [exact Hq|]. intros _. apply calm_await, calm_broadcastStats.
Qed.

Lemma headlines_app os1 os2 :
  EventLoop.headlines (os1 ++ os2) = EventLoop.headlines os1 ++ EventLoop.headlines os2.
Proof. unfold EventLoop.headlines. by rewrite emissions_app, omap_app. Qed.

Lemma advance_calm (t : time) (p : prog unit) :
  EventLoop.calm p ->
  EventLoop.headlines (EventLoop.advance t p).1 = [] ∧
  ∀ s, (EventLoop.advance t p).2 = Some s -> EventLoop.calm_suspended s.
Proof.
  induction 1 as [a|e|k Hk IH|m k Hm Hk IH|n k Hk IH|m k Hk IH|k Hk IH|k Hk IH];
    simpl.
  - by split.
  - by split.
  - apply IH.
  - destruct (EventLoop.advance t k) as [os s]. simpl in *.
    destruct IH as [IH1 IH2]. split; [|exact IH2].
    unfold EventLoop.headlines in *. simpl. by rewrite Hm.
  - destruct (EventLoop.advance t k) as [os s]. simpl in *. exact IH.
  - split; [reflexivity|]. by intros s [= <-].
  - split; [reflexivity|]. by intros s [= <-].
  - split; [reflexivity|]. by intros s [= <-].
Qed.

(** A handler that broadcasts the change and then announces nothing more. *)
Lemma advance_broadcast_then_calm (t : time) (m1 m2 : time -> emission)
    (rest : time -> prog unit) (x : string * order) :
  EventLoop.headline (m1 t) = Some x ->
  EventLoop.headline (m2 t) = None ->
  EventLoop.calm (rest t) ->
  let p := NewDate (fun now => IoEmit (m1 now) (IoEmit (m2 now) (rest now))) in
  EventLoop.headlines (EventLoop.advance t p).1 = [x] ∧
  ∀ s, (EventLoop.advance t p).2 = Some s -> EventLoop.calm_suspended s.
Proof.
  intros H1 H2 Hrest p. subst p. simpl.
  destruct (advance_calm t (rest t) Hrest) as [Hh Hs].
  destruct (EventLoop.advance t (rest t)) as [os s]. simpl in *.
  split; [|exact Hs].
  change (ObsEmit (m1 t) :: ObsEmit (m2 t) :: os)
    with ([ObsEmit (m1 t); ObsEmit (m2 t)] ++ os).
  rewrite headlines_app, Hh, app_nil_r.
  unfold EventLoop.headlines. simpl. by rewrite H1, H2.
Qed.

Lemma calm_notifications this env o old new :
  EventLoop.calm (EmailService.sendOrderCreatedEmail this env o) ∧
  EventLoop.calm (EmailService.sendStatusChangeEmail this env o old new) ∧
  EventLoop.calm (EmailService.sendOrderCancelledEmail this env o).
Proof.
  repeat split; constructor; apply calm_await, calm_sendEmail.
Qed.

Lemma calm_after_update emailService env (d : order) (previous : option order) :
  let statusChanged :=
    match previous with
    | Some p => bool_decide (status p ≠ status d)
    | None => false
    end in
  EventLoop.calm
    ((if statusChanged && truthy (email d)
      then match previous with
           | Some p =>
               ChangeStreamService.guarded
                 (EmailService.sendStatusChangeEmail emailService env d
                    (status p) (status d))
           | None => Ret tt
           end
      else Ret tt) ;;;
     if statusChanged
     then if bool_decide (status d = "delivered")
          then WebSocketService.broadcastCustomMessage "order-delivered"
                 [("orderId", _id d); ("customer_name", customer_name d);
                  ("product_name", product_name d)]
          else Ret tt
     else Ret tt).
Proof.
  intros statusChanged. apply calm_bind.
  - destruct (statusChanged && truthy (email d)); [|constructor].
    destruct previous as [p|]; [|constructor].
    apply calm_guarded, calm_notifications.
  - intros _. destruct statusChanged; [|constructor].
    destruct (bool_decide (status d = "delivered")); [|constructor].
    apply calm_broadcastCustomMessage.
Qed.

Lemma on_change_announces emailService env (c : change) (t : time) :
  EventLoop.headlines
    (EventLoop.advance t (ChangeStreamService.on_change emailService env c)).1
  = EventLoop.announced c ∧
  ∀ s, (EventLoop.advance t (ChangeStreamService.on_change emailService env c)).2
       = Some s -> EventLoop.calm_suspended s.
Proof.
  unfold ChangeStreamService.on_change, ChangeStreamService.handleChange,
    EventLoop.announced.
  destruct (decide (operationType c = "insert")) as [Hop|Hi].
  { rewrite Hop. decide_operation.
    destruct (fullDocument c) as [d|].
    - apply (advance_broadcast_then_calm t
               (fun now => {| dest := ToAll; event := "order-created";
                              body := OrderEnvelope "order-created" d now |})
               (fun now => {| dest := ToRoom (WebSocketService.order_room (_id d));
                              event := "order-update";
                              body := OrderEnvelope "order-created" d now |})
               (fun _ =>
                  try_catch
                    (await
                       (try_catch
                          (await
                             (if truthy (email d)
                              then ChangeStreamService.guarded
                                     (EmailService.sendOrderCreatedEmail
                                        emailService env d)
                              else Ret tt) ;;;
                           await WebSocketService.broadcastStats)
                          (fun _ => Ret tt)))
                    (fun _ => Ret tt)));
        [reflexivity | reflexivity |].
      apply calm_rest, calm_await. destruct (truthy (email d)); [|constructor].
      apply calm_guarded, (calm_notifications emailService env d "" "").
    - apply advance_calm, calm_rest, calm_await. constructor. }
  destruct (decide (operationType c = "update")) as [Hop|Hu].
  { rewrite Hop. decide_operation. simpl orb. cbv iota.
    destruct (fullDocument c) as [d|].
    - apply (advance_broadcast_then_calm t
               (fun now => {| dest := ToAll; event := "order-updated";
                              body := UpdateEnvelope "order-updated" d
                                        (fullDocumentBeforeChange c) now |})
               (fun now => {| dest := ToRoom (WebSocketService.order_room (_id d));
                              event := "order-update";
                              body := UpdateEnvelope "order-updated" d
                                        (fullDocumentBeforeChange c) now |})
               (fun _ =>
                  try_catch
                    (await
                       (try_catch
                          (await _ ;;;
                           await WebSocketService.broadcastStats)
                          (fun _ => Ret tt)))
                    (fun _ => Ret tt)));
        [reflexivity | reflexivity |].
      apply calm_rest, calm_await, calm_after_update.
    - apply advance_calm, calm_rest, calm_await. constructor. }
  destruct (decide (operationType c = "delete")) as [Hop|Hd].
  { rewrite Hop. decide_operation. simpl orb. cbv iota.
    set (info := match fullDocumentBeforeChange c with
                 | Some p => p
                 | None => {| _id := documentKey c; customer_name := "Unknown";
                              product_name := "Unknown"; status := "deleted";
                              email := None |}
                 end).
    apply (advance_broadcast_then_calm t
             (fun now => {| dest := ToAll; event := "order-deleted";
                            body := OrderEnvelope "order-deleted" info now |})
             (fun now => {| dest := ToRoom (WebSocketService.order_room (_id info));
                            event := "order-update";
                            body := OrderEnvelope "order-deleted" info now |})
             (fun _ =>
                try_catch
                  (await
                     (try_catch
                        (await
                           (match fullDocumentBeforeChange c with
                            | Some p =>
                                if truthy (email p)
                                then ChangeStreamService.guarded
                                       (EmailService.sendOrderCancelledEmail
                                          emailService env p)
                                else Ret tt
                            | None => Ret tt
                            end) ;;;
                         await WebSocketService.broadcastStats)
                        (fun _ => Ret tt)))
                  (fun _ => Ret tt)));
      [reflexivity | reflexivity |].
    apply calm_rest, calm_await.
    destruct (fullDocumentBeforeChange c) as [p|]; [|constructor].
    destruct (truthy (email p)); [|constructor].
    apply calm_guarded, (calm_notifications emailService env p "" ""). }
  destruct (decide (operationType c = "replace")) as [Hop|Hr].
  { rewrite Hop. decide_operation. simpl orb. cbv iota.
    destruct (fullDocument c) as [d|].
    - apply (advance_broadcast_then_calm t
               (fun now => {| dest := ToAll; event := "order-updated";
                              body := UpdateEnvelope "order-updated" d
                                        (fullDocumentBeforeChange c) now |})
               (fun now => {| dest := ToRoom (WebSocketService.order_room (_id d));
                              event := "order-update";
                              body := UpdateEnvelope "order-updated" d
                                        (fullDocumentBeforeChange c) now |})
               (fun _ =>
                  try_catch
                    (await
                       (try_catch
                          (await (await _) ;;;
                           await WebSocketService.broadcastStats)
                          (fun _ => Ret tt)))
                    (fun _ => Ret tt)));
        [reflexivity | reflexivity |].
      apply calm_rest, calm_await, calm_await, calm_after_update.
    - apply advance_calm, calm_rest, calm_await. constructor. }
  rewrite !bool_decide_eq_false_2 by done. simpl orb. cbv iota.
  apply advance_calm. apply (calm_rest (Ret tt)). constructor.
Qed.

Lemma on_event_announces emailService env (e : Feed.event) (t : time) :
  EventLoop.headlines
    (EventLoop.advance t (ChangeStreamService.on_event emailService env e)).1
  = EventLoop.announced_by e ∧
  ∀ s, (EventLoop.advance t (ChangeStreamService.on_event emailService env e)).2
       = Some s -> EventLoop.calm_suspended s.
Proof.
  unfold EventLoop.announced_by.
  destruct (Feed.documentKey e) as [key|] eqn:Hkey.
  - rewrite (on_event_keyed _ _ _ _ Hkey). apply on_change_announces.
  - unfold ChangeStreamService.on_event, ChangeStreamService.handleEvent.
    rewrite Hkey. apply advance_calm.
    apply calm_try_catch; [|intros; constructor]. apply calm_await. constructor.
Qed.

Lemma observed_app h1 h2 :
  EventLoop.observed (h1 ++ h2) = EventLoop.observed h1 ++ EventLoop.observed h2.
Proof. apply omap_app. Qed.

Lemma observed_did (os : list obs) : EventLoop.observed (EventLoop.Did <$> os) = os.
Proof.
  induction os as [|o os IH]; [reflexivity|].
  change (o :: EventLoop.observed (EventLoop.Did <$> os) = o :: os).
  by rewrite IH.
Qed.

Section Announcements.

Variable emailService : EmailService.service.
Variable env : gmap string string.

Lemma proceed_calm l rest p :
  EventLoop.calm p ->
  Forall EventLoop.calm_suspended rest ->
  Forall EventLoop.calm_suspended (EventLoop.pending (EventLoop.proceed l rest p)) ∧
  EventLoop.headlines
    (EventLoop.observed (EventLoop.history (EventLoop.proceed l rest p)))
  = EventLoop.headlines (EventLoop.observed (EventLoop.history l)).
Proof.
  intros Hp Hrest. unfold EventLoop.proceed.
  destruct (advance_calm (EventLoop.now l) p Hp) as [Hh Hs].
  destruct (EventLoop.advance (EventLoop.now l) p) as [os s].
  cbn [fst snd EventLoop.pending EventLoop.history] in *. split.
  - apply Forall_app. split; [exact Hrest|].
    destruct s as [s|]; [|constructor]. apply Forall_singleton. by apply Hs.
  - by rewrite observed_app, observed_did, headlines_app, Hh, app_nil_r.
Qed.

Lemma step_in_order l t :
  EventLoop.in_order l -> EventLoop.in_order (EventLoop.step emailService env l t).
Proof.
  intros [Hp Hh].
  assert (∀ i s, EventLoop.pending l !! i = Some s -> EventLoop.calm_suspended s)
    as Hcalm.
  { intros i s Hi. rewrite Forall_forall in Hp. apply Hp.
    by eapply list_elem_of_lookup_2. }
  assert (∀ i k, EventLoop.calm k ->
            EventLoop.in_order
              (EventLoop.proceed l (delete i (EventLoop.pending l)) k)) as Hgo.
  { intros i k Hk.
    destruct (proceed_calm l (delete i (EventLoop.pending l)) k Hk)
      as [Hp' Hh']; [by apply Forall_delete|].
    split; [exact Hp'|]. rewrite Hh', Hh.
    by destruct (proceed_feed l (delete i (EventLoop.pending l)) k) as [_ ->]. }
  destruct t as [|i r|i r|i|dt]; simpl.
  - unfold EventLoop.deliver. destruct (EventLoop.feed l) as [|e es]; [by split|].
    unfold EventLoop.proceed. simpl.
    destruct (on_event_announces emailService env e (EventLoop.now l)) as [Ha Hs].
    destruct (EventLoop.advance _ _) as [os s]. unfold EventLoop.in_order.
    cbn [fst snd EventLoop.pending EventLoop.history] in *. split.
    + apply Forall_app. split; [exact Hp|].
      destruct s as [s|]; [|constructor]. apply Forall_singleton. by apply Hs.
    + rewrite !observed_app, !handled_app, observed_did, handled_did.
      rewrite !headlines_app, !flat_map_app, Hh, Ha. simpl.
      by rewrite !app_nil_r.
  - destruct (EventLoop.pending l !! i) as [[m k|k|k]|] eqn:Hi; try by split.
    apply Hgo. apply (Hcalm i _ Hi).
  - destruct (EventLoop.pending l !! i) as [[m k|k|k]|] eqn:Hi; try by split.
    apply Hgo. apply (Hcalm i _ Hi).
  - destruct (EventLoop.pending l !! i) as [[m k|k|k]|] eqn:Hi; try by split.
    apply Hgo. apply (Hcalm i _ Hi).
  - by split.
Qed.

Lemma exec_in_order ts : ∀ l,
  EventLoop.in_order l -> EventLoop.in_order (EventLoop.exec emailService env l ts).
Proof.
  induction ts as [|t ts IH]; intros l Hl; [exact Hl|].
  unfold EventLoop.exec in *. simpl. apply IH. by apply step_in_order.
Qed.

End Announcements.

(** X20: whatever the schedule (however the deliveries of the feed, the
    resumptions of the handlers at their awaits and the completions of mail
    sends and statistics queries interleave), the announcements of changes
    that go to every connection (["order-created"], ["order-updated"],
    ["order-deleted"] with their record) appear in the order of the feed, one
    per handled event that has a record to announce: the announcement is made
    in the first turn of the handler, before its first await, and a handler
    that resumes after an await never announces a change.  So no connection
    sees the announcement of a later event before that of an earlier one. *)
Theorem announcements_follow_the_feed (emailService : EmailService.service)
    (env : gmap string string) (events : list Feed.event)
    (ts : list EventLoop.tick) :
  let l := EventLoop.exec emailService env (EventLoop.subscribed_to events) ts in
  EventLoop.headlines (EventLoop.observed (EventLoop.history l))
  = flat_map EventLoop.announced_by (EventLoop.handled (EventLoop.history l)) ∧
  EventLoop.headlines (EventLoop.observed (EventLoop.history l))
  ++ flat_map EventLoop.announced_by (EventLoop.feed l)
  = flat_map EventLoop.announced_by events.
Proof.
  intros l.
  assert (EventLoop.in_order l) as [_ Hh].
  { apply exec_in_order. split; [constructor|reflexivity]. }
  split; [exact Hh|].
  rewrite Hh, <- flat_map_app. subst l. by rewrite exec_keeps_order.
Qed.

(** ** One change, at most one notification *)

Lemma mails_sendEmail_le E this env to subject html text :
  length (mails (trace E (EmailService.sendEmail this env to subject html text))) ≤ 1.
Proof.
  rewrite trace_sendEmail. destruct (EmailService.isConfigured this); simpl; lia.
Qed.

Lemma notification_once E this env o old new :
  let once (p : prog sendResult) :=
    length (notifications (trace E p)) ≤ 1 ∧ length (mails (trace E p)) ≤ 1 in
  once (EmailService.sendOrderCreatedEmail this env o) ∧
  once (EmailService.sendStatusChangeEmail this env o old new) ∧
  once (EmailService.sendOrderCancelledEmail this env o).
Proof.
  intros once. subst once.
  unfold EmailService.sendOrderCreatedEmail, EmailService.sendStatusChangeEmail,
    EmailService.sendOrderCancelledEmail.
  rewrite !trace_notification, !trace_sendEmail.
  destruct (EmailService.isConfigured this); simpl; lia.
Qed.

(** X21: the handling of one change, whatever the change and whatever the
    surroundings answer, enters at most one notification method and hands at
    most one message to the mail transport. *)
Theorem one_change_one_notification (emailService : EmailService.service)
    (env : gmap string string) (E : environment) (c : change) :
  let t := trace E (ChangeStreamService.on_change emailService env c) in
  length (notifications t) ≤ 1 ∧ length (mails t) ≤ 1.
Proof.
  intros t. subst t.
  destruct (stats_trace_is_quiet E) as [Hn Hm].
  assert (∀ p : prog unit,
            (length (notifications (trace E p)) ≤ 1 ∧ length (mails (trace E p)) ≤ 1) ->
            length (notifications
                      (run E (try_catch
                                (await
                                   (try_catch
                                      (p ;;; await WebSocketService.broadcastStats)
                                      (fun _ => Ret tt)))
                                (fun _ => Ret tt))).1) ≤ 1 ∧
            length (mails
                      (run E (try_catch
                                (await
                                   (try_catch
                                      (p ;;; await WebSocketService.broadcastStats)
                                      (fun _ => Ret tt)))
                                (fun _ => Ret tt))).1) ≤ 1)
    as Hwrap.
  { intros p [Hpn Hpm]. rewrite run_then_stats. unfold trace in Hpn, Hpm.
    destruct (run E p) as [tp [[]|e]]; cbn [fst] in *; [|done].
    by rewrite notifications_app, mails_app, Hn, Hm, !app_nil_r. }
  unfold ChangeStreamService.on_change, ChangeStreamService.handleChange, trace.
  apply Hwrap.
  assert (length (notifications (trace E (Ret tt : prog unit))) ≤ 1 ∧
          length (mails (trace E (Ret tt : prog unit))) ≤ 1) as Hret
    by (simpl; lia).
  assert (∀ document previous,
            length (notifications
                      (trace E (ChangeStreamService.handleUpdate emailService env
                                  document previous))) ≤ 1 ∧
            length (mails
                      (trace E (ChangeStreamService.handleUpdate emailService env
                                  document previous))) ≤ 1) as Hupdate.
  { intros [d|] [p|]; try (simpl; lia).
    unfold trace. rewrite run_handleUpdate. cbn [fst].
    rewrite !notifications_app, !mails_app, !length_app.
    change (notifications (trace E (WebSocketService.broadcastOrderUpdated d (Some p))))
      with (@nil notification).
    change (mails (trace E (WebSocketService.broadcastOrderUpdated d (Some p))))
      with (@nil mailOptions).
    destruct (notification_once E emailService env d (status p) (status d))
      as (_ & [H1 H2] & _).
    assert (notifications
              (trace E (WebSocketService.broadcastCustomMessage "order-delivered"
                          [("orderId", _id d); ("customer_name", customer_name d);
                           ("product_name", product_name d)])) = [] ∧
            mails
              (trace E (WebSocketService.broadcastCustomMessage "order-delivered"
                          [("orderId", _id d); ("customer_name", customer_name d);
                           ("product_name", product_name d)])) = [])
      as [Hc1 Hc2] by (split; reflexivity).
    assert (notifications [] = [] ∧ mails [] = []) as [Hn0 Hm0]
      by (split; reflexivity).
    destruct (bool_decide (status p ≠ status d) && truthy (email d)),
      (bool_decide (status p ≠ status d) && bool_decide (status d = "delivered"));
      rewrite ?Hc1, ?Hc2, ?Hn0, ?Hm0;
      cbn [length]; lia. }
  destruct (bool_decide (operationType c = "insert")).
  { rewrite !trace_await. destruct (fullDocument c) as [d|]; [|simpl; lia].
    unfold trace. rewrite run_handleInsert. cbn [fst].
    rewrite !notifications_app, !mails_app, !length_app.
    change (notifications (trace E (WebSocketService.broadcastOrderCreated d)))
      with (@nil notification).
    change (mails (trace E (WebSocketService.broadcastOrderCreated d)))
      with (@nil mailOptions).
    destruct (notification_once E emailService env d "" "") as ([H1 H2] & _).
    assert (notifications [] = [] ∧ mails [] = []) as [Hn0 Hm0]
      by (split; reflexivity).
    destruct (truthy (email d)); rewrite ?Hn0, ?Hm0; cbn [length]; lia. }
  destruct (bool_decide (operationType c = "update"));
    [rewrite !trace_await; apply Hupdate|].
  destruct (bool_decide (operationType c = "delete")).
  { rewrite !trace_await. destruct (fullDocumentBeforeChange c) as [p|]; [|simpl; lia].
    unfold trace. rewrite run_handleDelete_snapshot. cbn [fst].
    rewrite !notifications_app, !mails_app, !length_app.
    change (notifications (trace E (WebSocketService.broadcastOrderDeleted p)))
      with (@nil notification).
    change (mails (trace E (WebSocketService.broadcastOrderDeleted p)))
      with (@nil mailOptions).
    destruct (notification_once E emailService env p "" "") as (_ & _ & [H1 H2]).
    assert (notifications [] = [] ∧ mails [] = []) as [Hn0 Hm0]
      by (split; reflexivity).
    destruct (truthy (email p)); rewrite ?Hn0, ?Hm0; cbn [length]; lia. }
  destruct (bool_decide (operationType c = "replace")); [|exact Hret].
  rewrite !trace_await. destruct (fullDocument c) as [d|]; [|simpl; lia].
  unfold ChangeStreamService.handleReplace. rewrite !trace_await.
  apply (Hupdate (Some d)).
Qed.
